(** * coc-yank: yank highlighting, yank history and snippet completion

    A shallow embedding of [src/index.ts]: the [TextYankPost] callback
    registered by [activate], the completion provider
    [provideCompletionItems], and the helpers [byteSlice] and
    [markdownBlock].

    - JavaScript strings are sequences of UTF-16 code units: [jsstring] is
      [list Z] and [.length] is the length of that list.
    - JavaScript numbers that the code handles are line numbers, columns,
      lengths and limits; they are modelled as [Z], and the [Infinity] that
      seeds the indentation fold is the extra value of [jsnum].
    - The editor (the [nvim] RPC object, the document's highlight call, the
      timer and the history store) is modelled as a set of calls the handler
      issues, interpreted against an arbitrary environment that can answer or
      reject each call. *)

From Stdlib Require Import ZArith List Bool Lia String Ascii DecimalString.
Import ListNotations.
Open Scope Z_scope.

(** ** JavaScript strings *)

Module JS.

Definition jsstring := list Z.

(** A string literal of the source, code unit by code unit. *)
Fixpoint lit (s : string) : jsstring :=
  match s with
  | EmptyString => []
  | String a r => Z.of_nat (nat_of_ascii a) :: lit r
  end.

(** [s.length] *)
Definition slen (s : jsstring) : Z := Z.of_nat (List.length s).

Fixpoint str_eqb (a b : jsstring) : bool :=
  match a, b with
  | [], [] => true
  | x :: a', y :: b' => (x =? y) && str_eqb a' b'
  | _, _ => false
  end.

(** [s.startsWith(p)] *)
Fixpoint startsWith (s p : jsstring) : bool :=
  match p, s with
  | [], _ => true
  | _ :: _, [] => false
  | y :: p', x :: s' => (x =? y) && startsWith s' p'
  end.

(** The relative-index rule shared by [String.prototype.slice],
    [Array.prototype.slice] and [Buffer.prototype.slice]: a negative index
    counts from the end, and the result is clamped to [0, n]. *)
Definition rel_index (n i : Z) : Z :=
  if i <? 0 then Z.max (n + i) 0 else Z.min i n.

(** [xs.slice(start, end)] for strings, arrays and buffers. *)
Definition slice {A} (xs : list A) (start stop : Z) : list A :=
  let n := Z.of_nat (List.length xs) in
  let from := rel_index n start in
  let to := rel_index n stop in
  firstn (Z.to_nat (to - from)) (skipn (Z.to_nat from) xs).

(** Numbers as the code uses them: integers, and [Infinity]. *)
Inductive jsnum := Fin (z : Z) | Infinity.

(** [Math.min(a, p)] with a finite first argument. *)
Definition math_min (a : Z) (p : jsnum) : jsnum :=
  match p with
  | Fin z => Fin (Z.min a z)
  | Infinity => Fin a
  end.

(** [xs.slice(start)] where [start] may be [Infinity]. *)
Definition slice_from {A} (xs : list A) (start : jsnum) : list A :=
  match start with
  | Fin z => slice xs z (Z.of_nat (List.length xs))
  | Infinity => []
  end.

(** [xs.join('\n')] *)
Fixpoint join_nl (xs : list jsstring) : jsstring :=
  match xs with
  | [] => []
  | [x] => x
  | x :: rest => x ++ 10 :: join_nl rest
  end.

(** The decimal rendering of an integer inside a template string. *)
Definition of_int (z : Z) : jsstring :=
  lit (NilZero.string_of_int (Z.to_int z)).

(** White space as [\s] and [trim] see it: WhiteSpace and LineTerminator
    of ECMAScript. *)
Definition is_space (u : Z) : bool :=
  ((9 <=? u) && (u <=? 13)) || (u =? 32) || (u =? 160) || (u =? 5760)
  || ((8192 <=? u) && (u <=? 8202)) || (u =? 8232) || (u =? 8233)
  || (u =? 8239) || (u =? 8287) || (u =? 12288) || (u =? 65279).

(** [s.match(/^\s*/)[0]]: the leading white-space run. *)
Fixpoint leading_ws (s : jsstring) : jsstring :=
  match s with
  | [] => []
  | u :: r => if is_space u then u :: leading_ws r else []
  end.

(** [s.replace(/^\s*/, '')] *)
Fixpoint trimStart (s : jsstring) : jsstring :=
  match s with
  | [] => []
  | u :: r => if is_space u then trimStart r else s
  end.

Definition trimEnd (s : jsstring) : jsstring := rev (trimStart (rev s)).

(** [s.trim()] *)
Definition trim (s : jsstring) : jsstring := trimEnd (trimStart s).

(** [/^\s*$/.test(s)] *)
Definition is_blank (s : jsstring) : bool := forallb is_space s.

End JS.

(** ** Node's [Buffer]: UTF-8 encoding, slicing and decoding *)

Module Buffer.
Import JS.

Definition is_high (u : Z) : bool := (0xD800 <=? u) && (u <=? 0xDBFF).
Definition is_low (u : Z) : bool := (0xDC00 <=? u) && (u <=? 0xDFFF).

(** The UTF-8 bytes of one code point. *)
Definition encode_cp (c : Z) : list Z :=
  if c <? 0x80 then [c]
  else if c <? 0x800 then
    [Z.lor 0xC0 (Z.shiftr c 6); Z.lor 0x80 (Z.land c 0x3F)]
  else if c <? 0x10000 then
    [Z.lor 0xE0 (Z.shiftr c 12);
     Z.lor 0x80 (Z.land (Z.shiftr c 6) 0x3F);
     Z.lor 0x80 (Z.land c 0x3F)]
  else
    [Z.lor 0xF0 (Z.shiftr c 18);
     Z.lor 0x80 (Z.land (Z.shiftr c 12) 0x3F);
     Z.lor 0x80 (Z.land (Z.shiftr c 6) 0x3F);
     Z.lor 0x80 (Z.land c 0x3F)].

(** [Buffer.from(s, 'utf8')]: a surrogate pair becomes one four-byte
    sequence, a lone surrogate becomes the bytes of U+FFFD. *)
Fixpoint from (s : jsstring) : list Z :=
  match s with
  | [] => []
  | u :: r =>
      if is_high u then
        match r with
        | v :: r' =>
            if is_low v
            then encode_cp (0x10000 + (u - 0xD800) * 0x400 + (v - 0xDC00))
                   ++ from r'
            else encode_cp 0xFFFD ++ from r
        | [] => encode_cp 0xFFFD
        end
      else if is_low u then encode_cp 0xFFFD ++ from r
      else encode_cp u ++ from r
  end.

(** [Buffer.byteLength(s, 'utf8')] *)
Definition byteLength (s : jsstring) : Z := Z.of_nat (List.length (from s)).

(** The UTF-16 code units of one decoded code point. *)
Definition units_of_cp (c : Z) : jsstring :=
  if c <? 0x10000 then [c]
  else [0xD800 + Z.shiftr (c - 0x10000) 10;
        0xDC00 + Z.land (c - 0x10000) 0x3FF].

(** State of the decoder inside a multi-byte sequence: the code point
    collected so far, the number of continuation bytes still expected, and
    the bounds for the next byte. *)
Record pending := Pending {
  p_cp : Z; p_needed : nat; p_lower : Z; p_upper : Z
}.

(** A byte met outside a sequence: it is emitted, it opens a sequence, or it
    is replaced by U+FFFD. *)
Definition lead (b : Z) : jsstring * option pending :=
  if b <=? 0x7F then ([b], None)
  else if (0xC2 <=? b) && (b <=? 0xDF) then
    ([], Some (Pending (Z.land b 0x1F) 1 0x80 0xBF))
  else if (0xE0 <=? b) && (b <=? 0xEF) then
    ([], Some (Pending (Z.land b 0xF) 2
                 (if b =? 0xE0 then 0xA0 else 0x80)
                 (if b =? 0xED then 0x9F else 0xBF)))
  else if (0xF0 <=? b) && (b <=? 0xF4) then
    ([], Some (Pending (Z.land b 0x7) 3
                 (if b =? 0xF0 then 0x90 else 0x80)
                 (if b =? 0xF4 then 0x8F else 0xBF)))
  else ([0xFFFD], None).

(** One byte of input. Inside a sequence, a byte out of bounds ends the
    sequence with U+FFFD and is then read again as a leading byte. *)
Definition feed (st : option pending) (b : Z) : jsstring * option pending :=
  match st with
  | None => lead b
  | Some p =>
      if (p_lower p <=? b) && (b <=? p_upper p) then
        let cp := Z.lor (Z.shiftl (p_cp p) 6) (Z.land b 0x3F) in
        match p_needed p with
        | S (S n) => ([], Some (Pending cp (S n) 0x80 0xBF))
        | _ => (units_of_cp cp, None)
        end
      else
        let (out, st') := lead b in (0xFFFD :: out, st')
  end.

Fixpoint decode (st : option pending) (bs : list Z) : jsstring :=
  match bs with
  | [] => match st with None => [] | Some _ => [0xFFFD] end
  | b :: r => let (out, st') := feed st b in out ++ decode st' r
  end.

(** [buf.toString('utf8')] *)
Definition toString (bs : list Z) : jsstring := decode None bs.

End Buffer.

(** ** [byteSlice] and [markdownBlock] *)

Import JS.

(** [byteSlice(content, start, end)]; [None] for an omitted [end]. *)
Definition byteSlice (content : jsstring) (start : Z) (stop : option Z)
  : jsstring :=
  let buf := Buffer.from content in
  let stop' := match stop with
               | Some e => e
               | None => Z.of_nat (List.length buf)
               end in
  Buffer.toString (slice buf start stop').

Definition markdownBlock (code filetype : jsstring) : jsstring :=
  let filetype :=
    if str_eqb filetype (lit "javascriptreact") then lit "javascript"
    else filetype in
  let filetype :=
    if str_eqb filetype (lit "typescriptreact") then lit "typescript"
    else filetype in
  lit "``` " ++ filetype ++ [10] ++ code ++ [10] ++ lit "```".

(** ** The data of the yank handler *)

Record Position := mkPosition { line : Z; character : Z }.
Record Range := mkRange { range_start : Position; range_end : Position }.

(** [Position.create] and the two forms of [Range.create] build the plain
    objects. *)
Definition Position_create (l c : Z) : Position := mkPosition l c.
Definition Range_create (s e : Position) : Range := mkRange s e.
Definition Range_create4 (sl sc el ec : Z) : Range :=
  mkRange (Position_create sl sc) (Position_create el ec).

(** [v:event] of [TextYankPost]. *)
Record YankEvent := mkEvent {
  regtype : jsstring;
  operator : jsstring;
  regcontents : list jsstring
}.

(** The document [workspace.getDocument(bufnr)] returns: its lines as last
    synchronised, its uri and its filetype. *)
Record Document := mkDocument {
  uri : jsstring;
  filetype : jsstring;
  lines : list jsstring
}.

(** [xs[i]]: [None] is [undefined]. *)
Definition index {A} (xs : list A) (i : Z) : option A :=
  if i <? 0 then None else nth_error xs (Z.to_nat i).

(** [doc.getline(i)] of coc.nvim: the line, or the empty string where the
    document has no such line. *)
Definition getline (doc : Document) (i : Z) : jsstring :=
  match index (lines doc) i with
  | Some l => l
  | None => []
  end.

(** The options of the [yank] configuration section that the two paths
    read, with the defaults of the [config.get] calls. *)
Record Config := mkConfig {
  byteLengthLimit : Z;
  highlight_enable : bool;
  highlight_duration : Z;
  enableCompletion : bool;
  limit : Z
}.

Definition default_config : Config := mkConfig 10240 true 500 true 3.

(** What [winsaveview()] returns: a dictionary of numbers. *)
Definition View := list (string * Z).

(** ** Calls that leave the handler

    Every [nvim.call], [nvim.command], notification bracket, highlight
    request, timer and store append of the callback, in the order the source
    issues them. *)
Inductive Call :=
| ForceSync                               (* doc.forceSync() *)
| GetPos                                  (* nvim.call('getpos', ["'["]) *)
| WinGetId                                (* nvim.call('win_getid') *)
| WinSaveView                             (* nvim.call('winsaveview') *)
| SetPos (lnum col : Z)                   (* setpos('.', [0, lnum, col, 0]) *)
| ColDot                                  (* nvim.call('col', ['.']) *)
| NormalJ                                 (* nvim.command('normal! j') *)
| WinRestView (v : View)                  (* nvim.call('winrestview', [view]) *)
| PauseNotification                       (* nvim.pauseNotification() *)
| MatchAddRanges (rs : list Range)        (* doc.matchAddRanges(ranges, ..) *)
| ResumeNotification                      (* nvim.resumeNotification() *)
| SetTimeout (ids : list Z) (ms : Z)      (* setTimeout(clearmatches ids, ms) *)
| DbAdd (content : list jsstring) (regtype path filetype : jsstring).

(** The type of a call's answer. [getpos] answers [[buf, lnum, col, off]], of
    which the handler keeps [lnum] and [col]. *)
Definition resp (c : Call) : Type :=
  match c with
  | GetPos => (Z * Z)%type
  | WinGetId => Z
  | WinSaveView => View
  | ColDot => Z
  | MatchAddRanges _ => list Z
  | _ => unit
  end.

(** A handler is a tree of calls: it returns, it throws a [TypeError] of its
    own, or it issues a call and continues with the answer. *)
Inductive prog (A : Type) : Type :=
| Ret (a : A)
| Throw
| Vis (c : Call) (k : resp c -> prog A).

Arguments Ret {A} a.
Arguments Throw {A}.
Arguments Vis {A} c k.

Fixpoint bind {A B} (p : prog A) (f : A -> prog B) : prog B :=
  match p with
  | Ret a => f a
  | Throw => Throw
  | Vis c k => Vis c (fun x => bind (k x) f)
  end.

Definition call (c : Call) : prog (resp c) := Vis c (fun x => Ret x).

Notation "x <- p ;; q" := (bind p (fun x => q))
  (at level 61, p at next level, right associativity).
Notation "p ;;; q" := (bind p (fun _ => q))
  (at level 61, right associativity).

(** ** The [TextYankPost] callback *)

(** Lines 51-59: the traversal of a block selection. [n] counts the
    iterations left, so that the loop test [i < lnum + regcontents.length]
    holds exactly while [n] is not zero. *)
Fixpoint block_loop (doc : Document) (regcontents : list jsstring)
    (lnum : Z) (n : nat) (i : Z) (ranges : list Range)
  : prog (list Range) :=
  match n with
  | O => Ret ranges
  | S n' =>
      col <- call ColDot ;;
      let line := getline doc (i - 1) in
      let startCharacter := slen (byteSlice line 0 (Some (col - 1))) in
      let start := Position_create (i - 1) startCharacter in
      match index regcontents (i - lnum) with
      | None => Throw
      | Some fragment =>
          let end_ :=
            Position_create (i - 1) (startCharacter + slen fragment) in
          call NormalJ ;;;
          block_loop doc regcontents lnum n' (i + 1)
            (ranges ++ [Range_create start end_])
      end
  end.

(** Lines 49-60: save the view, go to the start of the yank, traverse,
    restore the view. *)
Definition block_ranges (doc : Document) (regcontents : list jsstring)
    (lnum col : Z) : prog (list Range) :=
  view <- call WinSaveView ;;
  call (SetPos lnum col) ;;;
  ranges <- block_loop doc regcontents lnum
              (List.length regcontents) lnum [] ;;
  call (WinRestView view) ;;;
  Ret ranges.

(** Lines 62-65: the one range of a characterwise yank. Reading [.length]
    of a missing fragment is a [TypeError]. *)
Definition char_ranges (regcontents : list jsstring) (lnum character : Z)
  : option (list Range) :=
  let start := Position_create (lnum - 1) character in
  let n := Z.of_nat (List.length regcontents) in
  match index regcontents (if n =? 1 then 0 else n - 1) with
  | None => None
  | Some fragment =>
      let endCharacter :=
        if n =? 1 then character + slen fragment - 1 else slen fragment in
      let end_ := Position_create (lnum + n - 2) endCharacter in
      Some [Range_create start end_]
  end.

(** Lines 67-70: one range for each line of a linewise yank. *)
Fixpoint line_loop (doc : Document) (n : nat) (i : Z) (ranges : list Range)
  : list Range :=
  match n with
  | O => ranges
  | S n' =>
      let line := getline doc (i - 1) in
      line_loop doc n' (i + 1)
        (ranges ++ [Range_create4 (i - 1) 0 (i - 1) (slen line)])
  end.

Definition line_ranges (doc : Document) (regcontents : list jsstring)
    (lnum : Z) : list Range :=
  line_loop doc (List.length regcontents) lnum [].

(** Lines 74-81: the highlight itself and the timer that clears it. *)
Definition apply_highlight (ranges : list Range) (duration : Z)
  : prog unit :=
  call PauseNotification ;;;
  ids <- call (MatchAddRanges ranges) ;;
  call ResumeNotification ;;;
  match ids with
  | [] => Ret tt
  | _ :: _ => call (SetTimeout ids duration)
  end.

(** Lines 83-87: the history record. *)
Definition record (doc : Document) (ev : YankEvent) (lnum col : Z)
  : prog unit :=
  let content := join_nl (regcontents ev) in
  if slen content <? 4 then Ret tt
  else
    let path := uri doc ++ [9] ++ of_int lnum ++ [9] ++ of_int col in
    let regtype :=
      if startsWith (regtype ev) [22] then lit "^v" else regtype ev in
    call (DbAdd (regcontents ev) regtype path (filetype doc)).

(** Lines 32-35: the UTF-8 size of what was yanked. *)
Definition byte_total (regcontents : list jsstring) : Z :=
  fold_left (fun len s => len + Buffer.byteLength s) regcontents 0.

(** Lines 39-87: the callback once [getpos] has answered [lnum] and [col].
    A [return] of the source ends the tree with [Ret tt]. *)
Definition on_yank_at (cfg : Config) (doc : Document) (ev : YankEvent)
    (lnum col : Z) : prog unit :=
  let character :=
    slen (byteSlice (getline doc (lnum - 1)) 0 (Some col)) in
  if str_eqb (operator ev) (lit "y") then
    let enable := highlight_enable cfg in
    if negb enable then Ret tt
    else
      call WinGetId ;;;
      let duration := highlight_duration cfg in
      if startsWith (regtype ev) [22] then
        ranges <- block_ranges doc (regcontents ev) lnum col ;;
        apply_highlight ranges duration ;;;
        record doc ev lnum col
      else if str_eqb (regtype ev) (lit "v") then
        match char_ranges (regcontents ev) lnum character with
        | None => Throw
        | Some ranges =>
            apply_highlight ranges duration ;;;
            record doc ev lnum col
        end
      else if str_eqb (regtype ev) (lit "V") then
        apply_highlight (line_ranges doc (regcontents ev) lnum) duration ;;;
        record doc ev lnum col
      else Ret tt
  else record doc ev lnum col.

(** Lines 27-88. [doc] is the result of [workspace.getDocument(bufnr)]. *)
Definition on_yank (cfg : Config) (doc : option Document) (ev : YankEvent)
  : prog unit :=
  match doc with
  | None => Ret tt
  | Some doc =>
      let len := byte_total (regcontents ev) in
      if len >? byteLengthLimit cfg then Ret tt
      else
        call ForceSync ;;;
        pos <- call GetPos ;;
        on_yank_at cfg doc ev (fst pos) (snd pos)
  end.

(** ** Running a handler against an editor *)

(** An environment answers a call or rejects it (the promise of the call is
    rejected, or the synchronous call throws), and moves to a new state. *)
Record Env := mkEnv {
  state : Type;
  answer : forall c : Call, state -> option (resp c) * state
}.

Inductive exchange :=
| Answered (c : Call) (r : resp c)
| Failed (c : Call).

Definition call_of (x : exchange) : Call :=
  match x with Answered c _ => c | Failed c => c end.

Inductive outcome (A : Type) :=
| Done (a : A)        (* the callback's promise is fulfilled *)
| Threw               (* a TypeError raised by the callback's own code *)
| Rejected (c : Call) (* the failure of call [c] ended the callback *).

Arguments Done {A} a.
Arguments Threw {A}.
Arguments Rejected {A} c.

(** There is no [try] in the callback: the first rejected call ends it. *)
Fixpoint run (E : Env) {A} (p : prog A) (s : state E)
  : outcome A * list exchange * state E :=
  match p with
  | Ret a => (Done a, [], s)
  | Throw => (Threw, [], s)
  | Vis c k =>
      match answer E c s with
      | (Some x, s') =>
          let '(o, t, s'') := run E (k x) s' in (o, Answered c x :: t, s'')
      | (None, s') => (Rejected c, [Failed c], s')
      end
  end.

(** What a trace shows: the highlight requests, the store appends, the view
    saved and the views restored. *)
Definition highlights (t : list exchange) : list (list Range) :=
  flat_map (fun x => match call_of x with
                     | MatchAddRanges rs => [rs]
                     | _ => []
                     end) t.

Record HistoryItem := mkItem {
  content : list jsstring;
  item_regtype : jsstring;
  path : jsstring;
  item_filetype : jsstring
}.

Definition records (t : list exchange) : list HistoryItem :=
  flat_map (fun x => match call_of x with
                     | DbAdd c r p f => [mkItem c r p f]
                     | _ => []
                     end) t.

Definition saved_views (t : list exchange) : list View :=
  flat_map (fun x => match x with
                     | Answered WinSaveView v => [v]
                     | _ => []
                     end) t.

Definition restored_views (t : list exchange) : list View :=
  flat_map (fun x => match call_of x with
                     | WinRestView v => [v]
                     | _ => []
                     end) t.

(** [all_calls P p]: every call [p] can issue, on any path, satisfies
    [P]. *)
Fixpoint all_calls {A} (P : Call -> Prop) (p : prog A) : Prop :=
  match p with
  | Vis c k => P c /\ forall x, all_calls P (k x)
  | _ => True
  end.

(** ** The completion provider *)

(** [context.option] of a completion request, when there is one. *)
Record CompleteOption := mkOption {
  input : jsstring;
  opt_line : jsstring;
  opt_col : Z
}.

Record CompletionItem := mkCompletion {
  label : jsstring;
  insertText : jsstring;
  kind : Z;
  documentation_kind : jsstring;
  documentation_value : jsstring
}.

(** [CompletionItemKind.Snippet] *)
Definition Snippet : Z := 15.

(** What the promise of [provideCompletionItems] settles to. *)
Inductive completion :=
| Items (l : list CompletionItem)
| Undefined
| TypeError.

(** Lines 101-104: the callback of the first [filter]; [None] when
    [o.content[0]] is [undefined] and [.trim] throws. *)
Definition keep (languageId input : jsstring) (o : HistoryItem)
  : option bool :=
  if str_eqb (item_regtype o) (lit "^v") then Some false
  else if negb (str_eqb (item_filetype o) languageId) then Some false
  else match index (content o) 0 with
       | None => None
       | Some first => Some (startsWith (trim first) input)
       end.

(** [items.filter(f)] for a callback that may throw. *)
Fixpoint filter_throw {A} (f : A -> option bool) (xs : list A)
  : option (list A) :=
  match xs with
  | [] => Some []
  | x :: r =>
      match f x with
      | None => None
      | Some b =>
          match filter_throw f r with
          | None => None
          | Some r' => Some (if b then x :: r' else r')
          end
      end
  end.

(** Lines 111-114: the least length of a leading white-space run. *)
Definition indent_of (content : list jsstring) : jsnum :=
  fold_left (fun p s => let ms := leading_ws s in math_min (slen ms) p)
    content Infinity.

(** [xs.map((s, i) => ..)] *)
Fixpoint mapi_from {A B} (i : Z) (f : A -> Z -> B) (xs : list A) : list B :=
  match xs with
  | [] => []
  | x :: r => f x i :: mapi_from (i + 1) f r
  end.

(** Lines 115-118. *)
Definition dedent (content : list jsstring) : list jsstring :=
  let ind := indent_of content in
  mapi_from 0 (fun s i => if i =? 0 then trimStart s else slice_from s ind)
    content.

(** Lines 110-128: the candidate of one history item. *)
Definition build_item (item : HistoryItem) : option CompletionItem :=
  let lines := dedent (content item) in
  match index (content item) 0 with
  | None => None
  | Some first =>
      Some (mkCompletion (trim first) (join_nl lines) Snippet
              (lit "markdown")
              (markdownBlock (join_nl lines) (item_filetype item)))
  end.

(** [items.map(f)] for a callback that may throw. *)
Fixpoint map_throw {A B} (f : A -> option B) (xs : list A)
  : option (list B) :=
  match xs with
  | [] => Some []
  | x :: r =>
      match f x with
      | None => None
      | Some y =>
          match map_throw f r with
          | None => None
          | Some r' => Some (y :: r')
          end
      end
  end.

(** Lines 99-109: the history items that become candidates, most recent
    first. [items] is what [db.load()] resolved to. *)
Definition select (cfg : Config) (items : list HistoryItem)
    (languageId : jsstring) (opt : CompleteOption)
  : option (list HistoryItem) :=
  let items := rev items in
  match filter_throw (keep languageId (input opt)) items with
  | None => None
  | Some items =>
      let before_content := slice (opt_line opt) 0 (opt_col opt) in
      let items :=
        if negb (is_blank before_content)
        then filter (fun o => negb (str_eqb (item_regtype o) (lit "V"))) items
        else items in
      Some (slice items 0 (limit cfg))
  end.

(** Lines 92-129. *)
Definition provideCompletionItems (cfg : Config) (items : list HistoryItem)
    (languageId : jsstring) (opt : option CompleteOption) : completion :=
  let enabled := enableCompletion cfg in
  if negb enabled then Items []
  else
    match opt with
    | None => Undefined
    | Some opt =>
        match input opt with
        | [] => Undefined
        | _ :: _ =>
            match select cfg items languageId opt with
            | None => TypeError
            | Some items =>
                match map_throw build_item items with
                | None => TypeError
                | Some l => Items l
                end
            end
        end
    end.

(** ** An editor for examples

    It answers every call in the same way: the yank started at [ed_pos], the
    cursor column is [ed_col], every range gets a match id. The connection
    drops at call number [ed_drop], when there is one: that call and all
    later ones are rejected. *)
Record editor := mkEditor {
  ed_pos : Z * Z;
  ed_col : Z;
  ed_drop : option nat
}.

Definition editor_view : View :=
  [("lnum"%string, 1); ("col"%string, 0); ("topline"%string, 1)].

Definition editor_reply (ed : editor) (c : Call) : resp c :=
  match c return resp c with
  | GetPos => ed_pos ed
  | WinGetId => 1000
  | WinSaveView => editor_view
  | ColDot => ed_col ed
  | MatchAddRanges rs => map (fun k => 4 + Z.of_nat k) (seq 0 (List.length rs))
  | _ => tt
  end.

Definition editor_env (ed : editor) : Env :=
  mkEnv nat (fun (c : Call) (n : nat) =>
           match ed_drop ed with
           | Some d => if Nat.leb d n then (None, S n)
                       else (Some (editor_reply ed c), S n)
           | None => (Some (editor_reply ed c), S n)
           end).

(** The calls of a trace, answered or not. *)
Definition calls (t : list exchange) : list Call := map call_of t.

(** The trace and the outcome of a run. *)
Definition trace_of {E : Env} {A} (r : outcome A * list exchange * state E)
  : list exchange := snd (fst r).
Definition outcome_of {E : Env} {A} (r : outcome A * list exchange * state E)
  : outcome A := fst (fst r).

(** The calls of the block traversal's loop. *)
Definition cursor_step (c : Call) : Prop := c = ColDot \/ c = NormalJ.

(** The calls that are no store append. *)
Definition not_append (c : Call) : Prop :=
  match c with DbAdd _ _ _ _ => False | _ => True end.

(** ** Notions of the specification *)

(** The filter as the specification words it: the language tags are equal
    and the first content line, with its leading white space removed and
    nothing else, starts with the typed prefix. *)
Definition keep_as_specified (languageId input : jsstring) (o : HistoryItem)
  : bool :=
  match content o with
  | [] => false
  | first :: _ =>
      str_eqb (item_filetype o) languageId
      && startsWith (trimStart first) input
  end.

(** A position inside a document: its line exists and its character does
    not exceed the length of that line. *)
Definition position_in_doc (doc : Document) (p : Position) : bool :=
  (0 <=? line p) && (line p <? Z.of_nat (List.length (lines doc)))
  && (0 <=? character p) && (character p <=? slen (getline doc (line p))).

Definition range_in_doc (doc : Document) (r : Range) : bool :=
  position_in_doc doc (range_start r) && position_in_doc doc (range_end r).

(** The length of the leading white-space run of a line. *)
Definition ws_run (s : jsstring) : Z := slen (leading_ws s).

(** No code unit outside sixteen bits. *)
Definition well_formed (s : jsstring) : Prop :=
  Forall (fun u => 0 <= u < 65536) s.

(** The decoder run over a block of bytes: what it emits and the state it
    is left in. [decode] is this, followed by the end of the input. *)
Fixpoint feed_all (st : option Buffer.pending) (bs : list Z)
  : jsstring * option Buffer.pending :=
  match bs with
  | [] => ([], st)
  | b :: r =>
      let (out, st') := Buffer.feed st b in
      let (out', st'') := feed_all st' r in (out ++ out', st'')
  end.

(** A Unicode scalar value: a code point that is no surrogate. *)
Definition scalar (c : Z) : Prop :=
  0 <= c < 0x110000 /\ ~ (0xD800 <= c <= 0xDFFF).

(** A document whose lines are well-formed strings. *)
Definition doc_well_formed (doc : Document) : Prop :=
  Forall well_formed (lines doc).

(** A range that starts inside the line it names: at a character that does
    not exceed the length of the live line (the empty line, where the
    document has no such line). *)
Definition starts_in_line (doc : Document) (r : Range) : Prop :=
  0 <= character (range_start r)
    <= slen (getline doc (line (range_start r))).

(** ** Sample inputs *)

Module Sample.

(** A one-line Python buffer. *)
Definition doc : Document :=
  mkDocument (lit "file:///tmp/a.py") (lit "python") [lit "abcd"].

(** An editor that answers every call: the yank starts at line 1,
    column 1. *)
Definition ed : editor := mkEditor (1, 1) 1 None.

(** The same editor, losing its connection at the seventh call. *)
Definition ed_dropping : editor := mkEditor (1, 1) 1 (Some 6%nat).

(** [yiw] on the word: a characterwise yank of one line. *)
Definition ev_word : YankEvent := mkEvent (lit "v") (lit "y") [lit "abcd"].

(** [v$y] on the line: a characterwise yank that takes the line break. *)
Definition ev_to_eol : YankEvent :=
  mkEvent (lit "v") (lit "y") [lit "abcd"; lit ""].

(** [yy]: a linewise yank. *)
Definition ev_line : YankEvent := mkEvent (lit "V") (lit "y") [lit "abcd"].

(** [dd]: a linewise delete. *)
Definition ev_delete : YankEvent := mkEvent (lit "V") (lit "d") [lit "abcd"].

(** A blockwise yank of width 4 over two lines. *)
Definition ev_block : YankEvent :=
  mkEvent (22 :: lit "4") (lit "y") [lit "abcd"; lit "abcd"].

(** A yank whose register type the handler does not know. *)
Definition ev_unknown : YankEvent := mkEvent (lit "") (lit "y") [lit "abcd"].

(** A characterwise yank of 10241 bytes. *)
Definition ev_big : YankEvent :=
  mkEvent (lit "v") (lit "y") [repeat 97 (Z.to_nat 10241)].

Definition no_highlight : Config := mkConfig 10240 false 500 true 3.
Definition no_completion : Config := mkConfig 10240 true 500 false 3.

Definition item_foo : HistoryItem :=
  mkItem [lit "foo"; lit "bar"] (lit "v") (lit "file:///tmp/a.py" ++ 9 :: lit "1" ++ 9 :: lit "0")
    (lit "python").

(** A first line followed by white space. *)
Definition item_padded : HistoryItem :=
  mkItem [lit "foo  "] (lit "v") (lit "file:///tmp/a.py" ++ 9 :: lit "1" ++ 9 :: lit "0") (lit "python").

Definition item_block : HistoryItem :=
  mkItem [lit "foo"; lit "bar"] (lit "^v") (lit "file:///tmp/a.py" ++ 9 :: lit "1" ++ 9 :: lit "0")
    (lit "python").

Definition item_nested : HistoryItem :=
  mkItem [lit "    if x:"; lit "        y = 1"; lit "    z = 2"] (lit "V")
    (lit "file:///tmp/a.py" ++ 9 :: lit "3" ++ 9 :: lit "0") (lit "python").

Definition opt_fo : CompleteOption := mkOption (lit "fo") (lit "fo") 2.

End Sample.

(** ** Further notions *)

(** [s.toWellFormed()]: every lone surrogate becomes U+FFFD. *)
Fixpoint toWellFormed (s : jsstring) : jsstring :=
  match s with
  | [] => []
  | u :: r =>
      if Buffer.is_high u then
        match r with
        | v :: r' =>
            if Buffer.is_low v then u :: v :: toWellFormed r'
            else 0xFFFD :: toWellFormed r
        | [] => [0xFFFD]
        end
      else if Buffer.is_low u then 0xFFFD :: toWellFormed r
      else u :: toWellFormed r
  end.

(** A string of ASCII characters. *)
Definition is_ascii (s : jsstring) : Prop := Forall (fun u => 0 <= u < 128) s.

Definition is_append (c : Call) : bool :=
  match c with DbAdd _ _ _ _ => true | _ => false end.

Definition is_highlight (c : Call) : bool :=
  match c with MatchAddRanges _ => true | _ => false end.

(** [at_most Q n p]: on every path of [p] at most [n] of the calls issued
    satisfy [Q]. *)
Fixpoint at_most {A} (Q : Call -> bool) (n : nat) (p : prog A) : Prop :=
  match p with
  | Vis c k =>
      if Q c then
        match n with
        | O => False
        | S m => forall x, at_most Q m (k x)
        end
      else forall x, at_most Q n (k x)
  | _ => True
  end.

(** [never_throws p]: no path of [p] ends in a [TypeError] of the handler's
    own code. *)
Fixpoint never_throws {A} (p : prog A) : Prop :=
  match p with
  | Ret _ => True
  | Throw => False
  | Vis c k => forall x, never_throws (k x)
  end.

(** The conditions under which the handler reaches its highlight request. *)
Definition eligible (cfg : Config) (doc : option Document) (ev : YankEvent)
  : Prop :=
  doc <> None /\
  byte_total (regcontents ev) <= byteLengthLimit cfg /\
  operator ev = lit "y" /\
  highlight_enable cfg = true /\
  (startsWith (regtype ev) [22] = true
   \/ regtype ev = lit "v" \/ regtype ev = lit "V").

(** The record the handler appends for an event, once [getpos] has answered
    [lnum] and [col]. *)
Definition record_of (d : Document) (ev : YankEvent) (lnum col : Z)
  : HistoryItem :=
  mkItem (regcontents ev)
    (if startsWith (regtype ev) [22] then lit "^v" else regtype ev)
    (uri d ++ [9] ++ of_int lnum ++ [9] ++ of_int col)
    (filetype d).


Module More.


(** A line with an accented letter and an emoji. *)
Definition accented : jsstring := lit "caf" ++ [0xE9; 32; 0xD83D; 0xDE00].

(** A request for the word typed after [x = ]. *)
Definition opt_midline : CompleteOption :=
  mkOption (lit "fo") (lit "x = fo") 4.

End More.

(** * Properties *)

(** ** Strings *)

Lemma str_eqb_refl (a : jsstring) : str_eqb a a = true.
Proof.
  induction a as [|x a IH]; simpl; [reflexivity|].
  now rewrite Z.eqb_refl.
Qed.

Lemma str_eqb_eq (a b : jsstring) : str_eqb a b = true <-> a = b.
Proof.
  split.
  - revert b; induction a as [|x a IH]; intros [|y b]; simpl; try discriminate.
    + reflexivity.
    + intros H. apply andb_true_iff in H as [Hx Hr].
      apply Z.eqb_eq in Hx. f_equal; auto.
  - intros ->. apply str_eqb_refl.
Qed.

Lemma str_eqb_neq (a b : jsstring) : str_eqb a b = false <-> a <> b.
Proof.
  rewrite <- str_eqb_eq. destruct (str_eqb a b); split; congruence.
Qed.

(** ** Running sequences of calls *)

Lemma run_bind (E : Env) A B (p : prog A) (f : A -> prog B) (s : state E) :
  run E (bind p f) s =
  match run E p s with
  | (Done a, t, s') =>
      let '(o, t', s'') := run E (f a) s' in (o, t ++ t', s'')
  | (Threw, t, s') => (Threw, t, s')
  | (Rejected c, t, s') => (Rejected c, t, s')
  end.
Proof.
  revert s. induction p as [a| |c k IH]; intros s; simpl.
  - destruct (run E (f a) s) as [[o t] s']. reflexivity.
  - reflexivity.
  - destruct (answer E c s) as [[x|] s1]; [|reflexivity].
    rewrite IH. destruct (run E (k x) s1) as [[[a| |c'] t] s2]; try reflexivity.
    destruct (run E (f a) s2) as [[o t'] s3]. reflexivity.
Qed.

(** ** The byte ceiling *)

(** C1 (as the code has it): a yank whose captured lines exceed
    [byteLengthLimit] bytes of UTF-8 ends the callback before any call is
    issued: nothing is recorded and nothing is highlighted either, whatever
    the mode, the operator and the highlight option are. *)
Theorem over_limit_skips_record_and_highlight
    (cfg : Config) (doc : option Document) (ev : YankEvent)
    (E : Env) (s : state E) :
  byte_total (regcontents ev) > byteLengthLimit cfg ->
  on_yank cfg doc ev = Ret tt /\
  run E (on_yank cfg doc ev) s = (Done tt, [], s) /\
  records (trace_of (run E (on_yank cfg doc ev) s)) = [] /\
  highlights (trace_of (run E (on_yank cfg doc ev) s)) = [].
Proof.
  intros Hover.
  assert (Hret : on_yank cfg doc ev = Ret tt).
  { unfold on_yank. destruct doc as [d|]; [|reflexivity].
    cbv zeta. apply Z.gtb_gt in Hover. now rewrite Hover. }
  rewrite Hret. repeat split.
Qed.

Lemma over_limit_skips_record_and_highlight_witness :
  byte_total (regcontents Sample.ev_big) > byteLengthLimit default_config /\
  run (editor_env Sample.ed) (on_yank default_config (Some Sample.doc)
                                Sample.ev_big) O = (Done tt, [], O).
Proof.
  split.
  - vm_compute. reflexivity.
  - apply (over_limit_skips_record_and_highlight default_config
             (Some Sample.doc) Sample.ev_big (editor_env Sample.ed) O).
    vm_compute. reflexivity.
Defined.

(** C1 (counterexample): 10241 bytes against a ceiling of 10240, a
    characterwise yank with highlighting enabled and an editor that answers
    every call; the range builder has a range for it, and no highlight
    request is made. *)
Lemma over_limit_highlight_counterexample :
  byte_total (regcontents Sample.ev_big) = 10241 /\
  byteLengthLimit default_config = 10240 /\
  highlight_enable default_config = true /\
  regtype Sample.ev_big = lit "v" /\
  operator Sample.ev_big = lit "y" /\
  char_ranges (regcontents Sample.ev_big) 1 1 <> None /\
  highlights (trace_of (run (editor_env Sample.ed)
                          (on_yank default_config (Some Sample.doc)
                             Sample.ev_big) O)) = [].
Proof.
  repeat split; try (vm_compute; reflexivity).
  vm_compute. discriminate.
Qed.

(** ** The guards of the completion provider *)

(** C10: with [enableCompletion] off, every completion request is answered
    with the array of length zero, whatever the history and the request hold:
    the provider neither throws nor returns [undefined]. With the option on, a
    request without [option] is answered differently, with [undefined]. *)
Theorem completion_disabled_returns_empty_array
    (cfg : Config) (items : list HistoryItem) (languageId : jsstring)
    (opt : option CompleteOption) :
  enableCompletion cfg = false ->
  provideCompletionItems cfg items languageId opt = Items [] /\
  provideCompletionItems cfg items languageId opt <> Undefined /\
  provideCompletionItems cfg items languageId opt <> TypeError /\
  provideCompletionItems
    (mkConfig (byteLengthLimit cfg) (highlight_enable cfg)
       (highlight_duration cfg) true (limit cfg))
    items languageId None = Undefined.
Proof.
  intros Hoff. unfold provideCompletionItems. rewrite Hoff. simpl.
  repeat split; discriminate.
Qed.

Lemma completion_disabled_returns_empty_array_witness :
  provideCompletionItems Sample.no_completion [Sample.item_foo]
    (lit "python") (Some Sample.opt_fo) = Items [].
Proof.
  apply (completion_disabled_returns_empty_array Sample.no_completion
           [Sample.item_foo] (lit "python") (Some Sample.opt_fo)).
  reflexivity.
Defined.

(** C4 (what the code does): with completion enabled, a request whose
    context has no [option], or whose [option.input] is empty, makes the
    provider execute a bare [return]: its promise settles to [undefined],
    not to an empty array. *)
Theorem missing_input_returns_undefined
    (cfg : Config) (items : list HistoryItem) (languageId : jsstring)
    (opt : option CompleteOption) :
  enableCompletion cfg = true ->
  opt = None \/ (exists o, opt = Some o /\ input o = []) ->
  provideCompletionItems cfg items languageId opt = Undefined /\
  provideCompletionItems cfg items languageId opt <> Items [].
Proof.
  intros Hon H. unfold provideCompletionItems. rewrite Hon. simpl.
  destruct H as [->|[o [-> Hin]]]; [|rewrite Hin]; split;
    solve [reflexivity | discriminate].
Qed.

Lemma missing_input_returns_undefined_witness :
  provideCompletionItems default_config [Sample.item_foo] (lit "python") None
  = Undefined.
Proof.
  apply (missing_input_returns_undefined default_config [Sample.item_foo]
           (lit "python") None).
  - reflexivity.
  - left. reflexivity.
Defined.

(** ** Calls a handler can issue

    [all_calls P p]: on every path of [p], whatever the answers are, every
    call issued satisfies [P]. *)

Lemma all_calls_bind A B (P : Call -> Prop) (p : prog A) (f : A -> prog B) :
  all_calls P p -> (forall a, all_calls P (f a)) -> all_calls P (bind p f).
Proof.
  intros Hp Hf. induction p as [a| |c k IH]; simpl in *; auto.
  destruct Hp as [Hc Hk]. split; auto.
Qed.

Lemma all_calls_call (P : Call -> Prop) (c : Call) :
  P c -> all_calls P (call c).
Proof. intros H. simpl. split; [exact H|intros; exact I]. Qed.

Lemma all_calls_run (E : Env) A (P : Call -> Prop) (p : prog A) (s : state E) :
  all_calls P p -> Forall P (calls (trace_of (run E p s))).
Proof.
  revert s. induction p as [a| |c k IH]; intros s Hp; simpl in *;
    try constructor.
  destruct Hp as [Hc Hk].
  destruct (answer E c s) as [[x|] s1].
  - specialize (IH x s1 (Hk x)).
    destruct (run E (k x) s1) as [[o t] s2]. unfold trace_of in *; simpl in *.
    constructor; assumption.
  - unfold trace_of; simpl. constructor; [assumption|constructor].
Qed.

Lemma all_calls_weaken A (P Q : Call -> Prop) (p : prog A) :
  (forall c, P c -> Q c) -> all_calls P p -> all_calls Q p.
Proof.
  intros HPQ. induction p as [a| |c k IH]; simpl; auto.
  intros [Hc Hk]. split; auto.
Qed.

Lemma all_calls_block_loop (P : Call -> Prop) doc regcontents lnum n i ranges :
  P ColDot -> P NormalJ ->
  all_calls P (block_loop doc regcontents lnum n i ranges).
Proof.
  intros Hc Hj. revert i ranges.
  induction n as [|n IH]; intros i ranges; simpl; [exact I|].
  split; [exact Hc|]. intros col.
  destruct (index regcontents (i - lnum)); simpl; [|exact I].
  split; [exact Hj|]. intros _. apply IH.
Qed.

Lemma all_calls_block_ranges (P : Call -> Prop) doc regcontents lnum col :
  P WinSaveView -> P (SetPos lnum col) -> P ColDot -> P NormalJ ->
  (forall v, P (WinRestView v)) ->
  all_calls P (block_ranges doc regcontents lnum col).
Proof.
  intros Hs Hp Hc Hj Hr. unfold block_ranges.
  apply all_calls_bind; [now apply all_calls_call|]. intros view.
  apply all_calls_bind; [now apply all_calls_call|]. intros _.
  apply all_calls_bind; [now apply all_calls_block_loop|]. intros ranges.
  apply all_calls_bind; [apply all_calls_call, Hr|]. intros _. exact I.
Qed.

Lemma all_calls_apply_highlight (P : Call -> Prop) ranges duration :
  P PauseNotification -> P (MatchAddRanges ranges) -> P ResumeNotification ->
  (forall ids, P (SetTimeout ids duration)) ->
  all_calls P (apply_highlight ranges duration).
Proof.
  intros Hp Hm Hr Ht. unfold apply_highlight.
  apply all_calls_bind; [now apply all_calls_call|]. intros _.
  apply all_calls_bind; [now apply all_calls_call|]. intros ids.
  apply all_calls_bind; [now apply all_calls_call|]. intros _.
  destruct ids; [exact I|]. apply all_calls_call, Ht.
Qed.

Lemma records_nil (t : list exchange) :
  Forall not_append (calls t) -> records t = [].
Proof.
  induction t as [|x t IH]; simpl; [reflexivity|].
  intros H. inversion H as [|? ? Hx Ht]; subst.
  rewrite (IH Ht). destruct (call_of x); simpl in *; try reflexivity.
  contradiction.
Qed.

Lemma records_Forall (Q : HistoryItem -> Prop) (t : list exchange) :
  Forall (fun c => match c with
                   | DbAdd c r p f => Q (mkItem c r p f)
                   | _ => True
                   end) (calls t) ->
  Forall Q (records t).
Proof.
  induction t as [|x t IH]; simpl; [constructor|].
  intros H. inversion H as [|? ? Hx Ht]; subst.
  apply Forall_app. split; [|auto].
  destruct (call_of x); simpl in *; constructor; auto.
Qed.

(** Every append of the handler satisfies [Q] as soon as the one of
    [record] does. *)
Lemma all_calls_on_yank (P : Call -> Prop) cfg doc ev :
  (forall c, not_append c -> P c) ->
  (forall d lnum col, all_calls P (record d ev lnum col)) ->
  all_calls P (on_yank cfg doc ev).
Proof.
  intros Hother Hrec. unfold on_yank.
  destruct doc as [d|]; [|exact I]. cbv zeta.
  destruct (_ >? _); [exact I|].
  apply all_calls_bind; [apply all_calls_call, Hother; exact I|]. intros _.
  apply all_calls_bind; [apply all_calls_call, Hother; exact I|]. intros pos.
  unfold on_yank_at. cbv zeta.
  destruct (str_eqb (operator ev) _); [|apply Hrec].
  destruct (negb _); [exact I|].
  apply all_calls_bind; [apply all_calls_call, Hother; exact I|]. intros _.
  destruct (startsWith _ _).
  { apply all_calls_bind.
    - apply all_calls_block_ranges; intros; apply Hother; exact I.
    - intros ranges. apply all_calls_bind; [|intros; apply Hrec].
      apply all_calls_apply_highlight; intros; apply Hother; exact I. }
  destruct (str_eqb (regtype ev) (lit "v")).
  { destruct (char_ranges _ _ _); [|exact I].
    apply all_calls_bind; [|intros; apply Hrec].
    apply all_calls_apply_highlight; intros; apply Hother; exact I. }
  destruct (str_eqb (regtype ev) (lit "V")); [|exact I].
  apply all_calls_bind; [|intros; apply Hrec].
  apply all_calls_apply_highlight; intros; apply Hother; exact I.
Qed.

(** ** Lists under JavaScript's [filter], [slice] and [map] *)

Lemma filter_throw_In A (f : A -> option bool) (xs l : list A) :
  filter_throw f xs = Some l ->
  forall x, In x l <-> In x xs /\ f x = Some true.
Proof.
  revert l. induction xs as [|y xs IH]; intros l; simpl.
  - intros [= <-] x. simpl. tauto.
  - destruct (f y) as [b|] eqn:Hy; [|discriminate].
    destruct (filter_throw f xs) as [r|]; [|discriminate].
    intros [= <-] x. specialize (IH r eq_refl x).
    destruct b; simpl; rewrite ?IH.
    + split.
      * intros [->|[H1 H2]]; auto.
      * intros [[->|H1] H2]; auto.
    + split.
      * intros [H1 H2]; auto.
      * intros [[->|H1] H2]; [congruence|auto].
Qed.

Lemma In_firstn A (n : nat) (xs : list A) (x : A) :
  In x (firstn n xs) -> In x xs.
Proof.
  intros H. rewrite <- (firstn_skipn n xs). apply in_or_app. now left.
Qed.

Lemma In_skipn A (n : nat) (xs : list A) (x : A) :
  In x (skipn n xs) -> In x xs.
Proof.
  intros H. rewrite <- (firstn_skipn n xs). apply in_or_app. now right.
Qed.

Lemma slice_In A (xs : list A) (a b : Z) (x : A) :
  In x (slice xs a b) -> In x xs.
Proof.
  unfold slice. intros H.
  apply In_firstn in H. now apply In_skipn in H.
Qed.

Lemma select_In cfg items languageId opt sel :
  select cfg items languageId opt = Some sel ->
  forall o, In o sel ->
    In o items /\ keep languageId (input opt) o = Some true.
Proof.
  unfold select.
  destruct (filter_throw _ (rev items)) as [l|] eqn:Hf; [|discriminate].
  intros [= <-] o Ho. apply slice_In in Ho.
  assert (Hl : In o l).
  { destruct (negb _); [now apply filter_In in Ho|exact Ho]. }
  apply (filter_throw_In _ _ _ _ Hf) in Hl as [H1 H2].
  split; [now apply in_rev|exact H2].
Qed.

Lemma keep_true_not_block languageId input o :
  keep languageId input o = Some true -> item_regtype o <> lit "^v".
Proof.
  unfold keep. destruct (str_eqb (item_regtype o) (lit "^v")) eqn:Hb.
  - discriminate.
  - intros _. now apply str_eqb_neq.
Qed.

(** The candidates of an answer are built, one by one, from the selected
    history items. *)
Lemma provide_items_from_select cfg items languageId opt l :
  provideCompletionItems cfg items languageId opt = Items l ->
  exists sel,
    map_throw build_item sel = Some l /\
    forall o, In o sel ->
      In o items /\ exists i, opt = Some i
                              /\ keep languageId (input i) o = Some true.
Proof.
  unfold provideCompletionItems.
  destruct (negb (enableCompletion cfg)).
  { intros [= <-]. exists []. split; [reflexivity|intros o []]. }
  destruct opt as [i|]; [|discriminate].
  destruct (input i) eqn:Hin; [discriminate|].
  destruct (select cfg items languageId i) as [sel|] eqn:Hsel; [|discriminate].
  destruct (map_throw build_item sel) as [l'|] eqn:Hmap; [|discriminate].
  intros [= <-]. exists sel. split; [exact Hmap|].
  intros o Ho. destruct (select_In _ _ _ _ _ Hsel o Ho) as [H1 H2].
  split; [exact H1|]. exists i. split; [reflexivity|exact H2].
Qed.

(** ** Block captures and completion *)

Lemma record_block_tag (P : Call -> Prop) doc ev lnum col :
  startsWith (regtype ev) [22] = true ->
  (forall c p f, P (DbAdd c (lit "^v") p f)) ->
  all_calls P (record doc ev lnum col).
Proof.
  intros Hb HP. unfold record. cbv zeta. rewrite Hb.
  destruct (_ <? 4); [exact I|]. apply all_calls_call, HP.
Qed.

(** C7: a record that the handler stores for a yank whose register type
    begins with the block control byte carries the one tag ["^v"], and a
    record with that tag is never among the history items from which the
    completion provider builds its candidates, whatever the history, the
    language, the typed prefix and the limit are. *)
Theorem block_records_never_completed
    (cfg : Config) (doc : option Document) (ev : YankEvent)
    (E : Env) (s : state E) (r : HistoryItem) :
  startsWith (regtype ev) [22] = true ->
  In r (records (trace_of (run E (on_yank cfg doc ev) s))) ->
  item_regtype r = lit "^v" /\
  forall cfg' history languageId opt l,
    provideCompletionItems cfg' history languageId opt = Items l ->
    exists sel,
      map_throw build_item sel = Some l /\
      ~ In r sel /\
      forall o, In o sel -> In o history /\ item_regtype o <> lit "^v".
Proof.
  intros Hb Hr.
  assert (Htag : item_regtype r = lit "^v").
  { revert r Hr. apply Forall_forall. apply records_Forall.
    apply all_calls_run. apply all_calls_on_yank.
    - intros c Hc. destruct c; simpl in *; auto. contradiction.
    - intros d lnum col. apply record_block_tag; [exact Hb|].
      intros; reflexivity. }
  split; [exact Htag|].
  intros cfg' history languageId opt l Hl.
  destruct (provide_items_from_select _ _ _ _ _ Hl) as [sel [Hmap Hsel]].
  exists sel. split; [exact Hmap|]. split.
  - intros Hin. destruct (Hsel r Hin) as [_ [i [_ Hk]]].
    now apply keep_true_not_block in Hk.
  - intros o Ho. destruct (Hsel o Ho) as [H1 [i [_ Hk]]].
    split; [exact H1|]. now apply keep_true_not_block in Hk.
Qed.

Lemma block_records_never_completed_witness :
  item_regtype
    (mkItem (regcontents Sample.ev_block) (lit "^v")
       (lit "file:///tmp/a.py" ++ 9 :: lit "1" ++ 9 :: lit "1") (lit "python")) = lit "^v" /\
  provideCompletionItems default_config [Sample.item_block; Sample.item_foo]
    (lit "python") (Some Sample.opt_fo)
  = Items [mkCompletion (lit "foo") (lit "foo" ++ 10 :: lit "bar") Snippet (lit "markdown") (lit "``` python" ++ 10 :: lit "foo" ++ 10 :: lit "bar" ++ 10 :: lit "```")].
Proof.
  split; [|vm_compute; reflexivity].
  apply (block_records_never_completed default_config (Some Sample.doc)
           Sample.ev_block (editor_env Sample.ed) O
           (mkItem (regcontents Sample.ev_block) (lit "^v")
              (lit "file:///tmp/a.py" ++ 9 :: lit "1" ++ 9 :: lit "1") (lit "python"))).
  - reflexivity.
  - vm_compute. left. reflexivity.
Defined.

(** ** White space and prefixes *)

Lemma startsWith_app (s p : jsstring) :
  startsWith s p = true <-> exists r, s = p ++ r.
Proof.
  revert s. induction p as [|y p IH]; intros s; simpl.
  - split; [intros _; now exists s|intros _; destruct s; reflexivity].
  - destruct s as [|x s].
    + split; [discriminate|intros [r Hr]; discriminate].
    + simpl. rewrite andb_true_iff, Z.eqb_eq, IH. split.
      * intros [-> [r ->]]. now exists r.
      * intros [r [= -> ->]]. split; [reflexivity|now exists r].
Qed.

Lemma trimStart_split (s : jsstring) : s = leading_ws s ++ trimStart s.
Proof.
  induction s as [|u r IH]; simpl; [reflexivity|].
  destruct (is_space u); simpl; [now rewrite <- IH|reflexivity].
Qed.

Lemma leading_ws_spaces (s : jsstring) : forallb is_space (leading_ws s) = true.
Proof.
  induction s as [|u r IH]; simpl; [reflexivity|].
  destruct (is_space u) eqn:Hu; simpl; [now rewrite Hu|reflexivity].
Qed.

Lemma trimEnd_split (t : jsstring) :
  exists w, t = trimEnd t ++ w /\ forallb is_space w = true.
Proof.
  exists (rev (leading_ws (rev t))). split.
  - unfold trimEnd. rewrite <- rev_app_distr, <- trimStart_split.
    now rewrite rev_involutive.
  - rewrite forallb_forall. intros x Hx. apply in_rev in Hx.
    pose proof (leading_ws_spaces (rev t)) as H.
    rewrite forallb_forall in H. now apply H.
Qed.

(** A prefix that does not end in white space is found in a line exactly
    when it is found in the line without its trailing white space. *)
Lemma startsWith_trimEnd (t p0 : jsstring) (z : Z) :
  is_space z = false ->
  startsWith (trimEnd t) (p0 ++ [z]) = startsWith t (p0 ++ [z]).
Proof.
  intros Hz. apply eq_true_iff_eq. rewrite !startsWith_app.
  destruct (trimEnd_split t) as [w [Ht Hw]]. split.
  - intros [r Hr]. exists (r ++ w). rewrite app_assoc, <- Hr. exact Ht.
  - intros [r Hr].
    assert (Heq : trimEnd t ++ w = (p0 ++ [z]) ++ r) by congruence.
    apply app_eq_app in Heq as [l [[H1 H2]|[H1 H2]]].
    + now exists l.
    + destruct l as [|a l' _] using rev_ind.
      * exists []. now rewrite app_nil_r in *.
      * rewrite app_assoc in H1. apply app_inj_tail in H1 as [_ <-].
        rewrite forallb_forall in Hw.
        assert (Hin : In z w).
        { rewrite H2. apply in_or_app. left. apply in_or_app. right.
          now left. }
        apply Hw in Hin. congruence.
Qed.

(** ** The language and prefix filter *)

(** C8 (as the code has it): a non-Block history record with a first
    content line is kept by the first filter exactly when its language tag
    equals the document's language and its first content line, with its
    leading and its trailing white space removed ([trim]), starts with the
    typed prefix. For a typed prefix that does not end in white space this
    is the same as removing the leading white space only. *)
Theorem language_prefix_filter
    (languageId input : jsstring) (o : HistoryItem)
    (first : jsstring) (rest : list jsstring) :
  item_regtype o <> lit "^v" ->
  content o = first :: rest ->
  keep languageId input o
  = Some (str_eqb (item_filetype o) languageId
          && startsWith (trim first) input) /\
  (forall items l,
     filter_throw (keep languageId input) items = Some l ->
     (In o l <-> In o items /\ item_filetype o = languageId
                 /\ startsWith (trim first) input = true)) /\
  (forall p0 z, input = p0 ++ [z] -> is_space z = false ->
     keep languageId input o = Some (keep_as_specified languageId input o)).
Proof.
  intros Hnb Hc.
  assert (Hk : keep languageId input o
               = Some (str_eqb (item_filetype o) languageId
                       && startsWith (trim first) input)).
  { unfold keep. apply str_eqb_neq in Hnb. rewrite Hnb, Hc.
    destruct (str_eqb (item_filetype o) languageId); reflexivity. }
  split; [exact Hk|]. split.
  - intros items l Hl. rewrite (filter_throw_In _ _ _ _ Hl o), Hk.
    split.
    + intros [Hin [= H]]. apply andb_true_iff in H as [H1 H2].
      apply str_eqb_eq in H1. auto.
    + intros [Hin [H1 H2]]. split; [exact Hin|].
      apply str_eqb_eq in H1. now rewrite H1, H2.
  - intros p0 z -> Hz. rewrite Hk. unfold keep_as_specified. rewrite Hc.
    unfold trim. now rewrite startsWith_trimEnd.
Qed.

Lemma language_prefix_filter_witness :
  keep (lit "python") (lit "fo") Sample.item_foo = Some true.
Proof.
  apply (language_prefix_filter (lit "python") (lit "fo") Sample.item_foo
           (lit "foo") [lit "bar"]).
  - discriminate.
  - reflexivity.
Defined.

(** C8 (counterexample): the first line ["foo  "] and the typed prefix
    ["foo "]. With only the leading white space removed the line starts with
    the prefix; the code removes the trailing white space too and drops the
    record. *)
Lemma language_prefix_filter_counterexample :
  item_regtype Sample.item_padded <> lit "^v" /\
  item_filetype Sample.item_padded = lit "python" /\
  keep_as_specified (lit "python") (lit "foo ") Sample.item_padded = true /\
  keep (lit "python") (lit "foo ") Sample.item_padded = Some false.
Proof.
  split; [discriminate|]. repeat split.
Qed.

(** ** Common indentation *)

Lemma ws_run_bounds (s : jsstring) : 0 <= ws_run s <= slen s.
Proof.
  unfold ws_run, slen. split; [lia|].
  rewrite (trimStart_split s) at 2. rewrite length_app. lia.
Qed.

Lemma leading_ws_trimStart (s : jsstring) : leading_ws (trimStart s) = [].
Proof.
  induction s as [|u r IH]; simpl; [reflexivity|].
  destruct (is_space u) eqn:Hu; [exact IH|]. simpl. now rewrite Hu.
Qed.

Lemma leading_ws_app (w s : jsstring) :
  forallb is_space w = true ->
  leading_ws (w ++ trimStart s) = w.
Proof.
  induction w as [|u w IH]; simpl.
  - intros _. apply leading_ws_trimStart.
  - intros H. apply andb_true_iff in H as [Hu Hw].
    rewrite Hu. now rewrite IH.
Qed.

Lemma forallb_skipn A (f : A -> bool) (n : nat) (xs : list A) :
  forallb f xs = true -> forallb f (skipn n xs) = true.
Proof.
  rewrite !forallb_forall. intros H x Hx. apply H. now apply In_skipn in Hx.
Qed.

(** Dropping [m] units from a line whose leading run has at least [m]
    units drops white space only, and shortens the run by [m]. *)
Lemma skipn_within_run (s : jsstring) (m : Z) :
  0 <= m <= ws_run s ->
  s = firstn (Z.to_nat m) (leading_ws s) ++ skipn (Z.to_nat m) s /\
  slen (firstn (Z.to_nat m) (leading_ws s)) = m /\
  ws_run (skipn (Z.to_nat m) s) = ws_run s - m.
Proof.
  intros Hm. unfold ws_run, slen in *.
  assert (Hlen : (Z.to_nat m <= List.length (leading_ws s))%nat) by lia.
  assert (Hskip : skipn (Z.to_nat m) s
                  = skipn (Z.to_nat m) (leading_ws s) ++ trimStart s).
  { rewrite (trimStart_split s) at 1. rewrite skipn_app.
    replace (Z.to_nat m - List.length (leading_ws s))%nat with O by lia.
    reflexivity. }
  repeat split.
  - rewrite Hskip, app_assoc, firstn_skipn. apply trimStart_split.
  - rewrite length_firstn. lia.
  - rewrite Hskip, leading_ws_app.
    + rewrite length_skipn. lia.
    + apply forallb_skipn, leading_ws_spaces.
Qed.

Lemma slice_from_skipn (s : jsstring) (m : Z) :
  0 <= m <= slen s -> slice_from s (Fin m) = skipn (Z.to_nat m) s.
Proof.
  intros Hm. unfold slice_from, slice, rel_index, slen in *.
  destruct (m <? 0) eqn:H1; [lia|].
  destruct (Z.of_nat (List.length s) <? 0) eqn:H2; [lia|].
  rewrite Z.min_id, (Z.min_l m) by lia.
  apply firstn_all2. rewrite length_skipn. lia.
Qed.

Lemma fold_min_Fin (l : list jsstring) (z : Z) :
  fold_left (fun p s => let ms := leading_ws s in math_min (slen ms) p)
    l (Fin z)
  = Fin (fold_left (fun p s => Z.min (ws_run s) p) l z).
Proof.
  revert z. induction l as [|s l IH]; intros z; simpl; [reflexivity|].
  apply IH.
Qed.

Lemma fold_min_spec (l : list jsstring) (z : Z) :
  let m := fold_left (fun p s => Z.min (ws_run s) p) l z in
  m <= z /\ (forall s, In s l -> m <= ws_run s) /\
  (m = z \/ exists s, In s l /\ ws_run s = m).
Proof.
  revert z. induction l as [|s l IH]; intros z; simpl.
  - split; [lia|]. split; [intros s []|now left].
  - destruct (IH (Z.min (ws_run s) z)) as [H1 [H2 H3]].
    split; [lia|]. split.
    + intros x [<-|Hx]; [lia|auto].
    + destruct H3 as [H3|[x [Hx1 Hx2]]].
      * destruct (Z.min_spec (ws_run s) z) as [[_ Hmin]|[_ Hmin]].
        -- right. exists s. split; [now left|lia].
        -- left. lia.
      * right. exists x. split; [now right|exact Hx2].
Qed.

Lemma mapi_from_positive A B (f g : A -> B) (i : Z) (xs : list A) :
  0 < i ->
  mapi_from i (fun s k => if k =? 0 then f s else g s) xs = map g xs.
Proof.
  revert i. induction xs as [|x xs IH]; intros i Hi; simpl; [reflexivity|].
  destruct (i =? 0) eqn:H0; [lia|]. now rewrite IH by lia.
Qed.

(** The common indentation of a snippet with a first line, and the lines of
    its insertion text. *)
Lemma dedent_cons (first : jsstring) (rest : list jsstring) :
  exists m,
    indent_of (first :: rest) = Fin m /\
    (forall s, In s (first :: rest) -> 0 <= m <= ws_run s) /\
    (exists s, In s (first :: rest) /\ ws_run s = m) /\
    dedent (first :: rest)
    = trimStart first :: map (skipn (Z.to_nat m)) rest.
Proof.
  set (m := fold_left (fun p s => Z.min (ws_run s) p) rest (ws_run first)).
  assert (Hind : indent_of (first :: rest) = Fin m).
  { unfold indent_of. simpl. apply fold_min_Fin. }
  destruct (fold_min_spec rest (ws_run first)) as [H1 [H2 H3]].
  fold m in H1, H2, H3.
  assert (Hnonneg : 0 <= m).
  { destruct H3 as [->|[s [_ <-]]]; apply ws_run_bounds. }
  exists m. split; [exact Hind|]. split; [|split].
  - intros s [<-|Hs]; [lia|]. specialize (H2 s Hs). lia.
  - destruct H3 as [H3|[s [Hs1 Hs2]]].
    + exists first. split; [now left|now symmetry].
    + exists s. split; [now right|exact Hs2].
  - unfold dedent. rewrite Hind. simpl. f_equal.
    rewrite mapi_from_positive by lia.
    apply map_ext_in. intros s Hs. apply slice_from_skipn.
    specialize (H2 s Hs). pose proof (ws_run_bounds s). lia.
Qed.

(** C5: a history record that survives the filters has a first content
    line; the common indentation [m] is the least length of a leading
    white-space run over all its content lines; the insertion text joins the
    first line without its whole leading white-space run and every later
    line without its first [m] units, which are white space, so that a later
    line keeps a run shorter by exactly [m]. *)
Theorem insert_text_strips_common_indent
    (cfg : Config) (history : list HistoryItem) (languageId : jsstring)
    (opt : CompleteOption) (sel : list HistoryItem) (item : HistoryItem) :
  select cfg history languageId opt = Some sel ->
  In item sel ->
  exists first rest m c,
    content item = first :: rest /\
    indent_of (content item) = Fin m /\
    (forall s, In s (content item) -> m <= ws_run s) /\
    (exists s, In s (content item) /\ ws_run s = m) /\
    build_item item = Some c /\
    insertText c
    = join_nl (trimStart first :: map (skipn (Z.to_nat m)) rest) /\
    first = leading_ws first ++ trimStart first /\
    ws_run (trimStart first) = 0 /\
    (forall s, In s rest ->
       s = firstn (Z.to_nat m) (leading_ws s) ++ skipn (Z.to_nat m) s /\
       slen (firstn (Z.to_nat m) (leading_ws s)) = m /\
       ws_run (skipn (Z.to_nat m) s) = ws_run s - m).
Proof.
  intros Hsel Hin.
  destruct (select_In _ _ _ _ _ Hsel item Hin) as [_ Hkeep].
  destruct (content item) as [|first rest] eqn:Hc.
  { unfold keep in Hkeep. rewrite Hc in Hkeep. simpl in Hkeep.
    destruct (str_eqb _ _); [discriminate|].
    destruct (negb _); discriminate. }
  destruct (dedent_cons first rest) as [m [Hind [Hle [Hex Hded]]]].
  exists first, rest, m.
  exists (mkCompletion (trim first) (join_nl (dedent (first :: rest))) Snippet
            (lit "markdown")
            (markdownBlock (join_nl (dedent (first :: rest)))
               (item_filetype item))).
  split; [reflexivity|]. split; [exact Hind|].
  split; [intros s Hs; apply (Hle s Hs)|]. split; [exact Hex|].
  split; [unfold build_item; rewrite Hc; reflexivity|].
  split; [cbn [insertText]; now rewrite Hded|].
  split; [apply trimStart_split|].
  split; [unfold ws_run; now rewrite leading_ws_trimStart|].
  intros s Hs. apply skipn_within_run. apply Hle. now right.
Qed.

Lemma insert_text_strips_common_indent_witness :
  exists first rest m c,
    content Sample.item_nested = first :: rest /\
    indent_of (content Sample.item_nested) = Fin m /\
    (forall s, In s (content Sample.item_nested) -> m <= ws_run s) /\
    (exists s, In s (content Sample.item_nested) /\ ws_run s = m) /\
    build_item Sample.item_nested = Some c /\
    insertText c
    = join_nl (trimStart first :: map (skipn (Z.to_nat m)) rest) /\
    first = leading_ws first ++ trimStart first /\
    ws_run (trimStart first) = 0 /\
    (forall s, In s rest ->
       s = firstn (Z.to_nat m) (leading_ws s) ++ skipn (Z.to_nat m) s /\
       slen (firstn (Z.to_nat m) (leading_ws s)) = m /\
       ws_run (skipn (Z.to_nat m) s) = ws_run s - m).
Proof.
  apply (insert_text_strips_common_indent default_config
           [Sample.item_foo; Sample.item_nested] (lit "python")
           (mkOption (lit "if") (lit "  if") 2) [Sample.item_nested]).
  - vm_compute. reflexivity.
  - left. reflexivity.
Defined.

(** ** The range of a characterwise yank *)

Lemma char_ranges_single (l : jsstring) (lnum c : Z) :
  char_ranges [l] lnum c
  = Some [mkRange (mkPosition (lnum - 1) c)
            (mkPosition (lnum - 1) (c + slen l - 1))].
Proof.
  unfold char_ranges. simpl. unfold Range_create, Position_create.
  replace (lnum + 1 - 2) with (lnum - 1) by lia. reflexivity.
Qed.

Lemma char_ranges_multi (init : list jsstring) (last : jsstring)
    (lnum c : Z) :
  init <> [] ->
  char_ranges (init ++ [last]) lnum c
  = Some [mkRange (mkPosition (lnum - 1) c)
            (mkPosition
               (lnum + Z.of_nat (List.length (init ++ [last])) - 2)
               (slen last))].
Proof.
  intros Hne. unfold char_ranges. cbv zeta.
  assert (Hlen : List.length (init ++ [last]) = S (List.length init)).
  { rewrite length_app. simpl. lia. }
  assert (Hpos : (0 < List.length init)%nat).
  { destruct init; [congruence|simpl; lia]. }
  rewrite Hlen.
  destruct (Z.eqb_spec (Z.of_nat (S (List.length init))) 1) as [H1|H1];
    [lia|].
  unfold index.
  destruct (Z.ltb_spec (Z.of_nat (S (List.length init)) - 1) 0) as [H2|H2];
    [lia|].
  replace (Z.to_nat (Z.of_nat (S (List.length init)) - 1))
    with (List.length init) by lia.
  rewrite nth_error_app2, Nat.sub_diag by lia. simpl. reflexivity.
Qed.

Lemma on_yank_at_char (cfg : Config) (doc : Document) (ev : YankEvent)
    (lnum col : Z) (rs : list Range) :
  regtype ev = lit "v" -> operator ev = lit "y" ->
  highlight_enable cfg = true ->
  char_ranges (regcontents ev) lnum
    (slen (byteSlice (getline doc (lnum - 1)) 0 (Some col))) = Some rs ->
  on_yank_at cfg doc ev lnum col
  = (call WinGetId ;;;
     apply_highlight rs (highlight_duration cfg) ;;;
     record doc ev lnum col).
Proof.
  intros Hreg Hop Hen Hrs. unfold on_yank_at. cbv zeta.
  rewrite Hop, Hreg, Hen, Hrs. reflexivity.
Qed.

(** C3: for a characterwise yank (register type ["v"]) that starts on line
    [lnum] at the character column [c] the handler computes, the handler
    highlights exactly one range. With one captured line of length [L] it
    runs from [(lnum - 1, c)] to [(lnum - 1, c + L - 1)]; with [N > 1]
    captured lines it runs from [(lnum - 1, c)] to line [lnum + N - 2] and
    the full length of the last captured fragment. *)
Theorem char_mode_range
    (cfg : Config) (doc : Document) (ev : YankEvent) (lnum col : Z) :
  regtype ev = lit "v" -> operator ev = lit "y" ->
  highlight_enable cfg = true ->
  let c := slen (byteSlice (getline doc (lnum - 1)) 0 (Some col)) in
  let N := Z.of_nat (List.length (regcontents ev)) in
  (forall l, regcontents ev = [l] ->
     on_yank_at cfg doc ev lnum col
     = (call WinGetId ;;;
        apply_highlight
          [mkRange (mkPosition (lnum - 1) c)
             (mkPosition (lnum - 1) (c + slen l - 1))]
          (highlight_duration cfg) ;;;
        record doc ev lnum col)) /\
  (forall init last, regcontents ev = init ++ [last] -> init <> [] ->
     N > 1 /\
     on_yank_at cfg doc ev lnum col
     = (call WinGetId ;;;
        apply_highlight
          [mkRange (mkPosition (lnum - 1) c)
             (mkPosition (lnum + N - 2) (slen last))]
          (highlight_duration cfg) ;;;
        record doc ev lnum col)).
Proof.
  intros Hreg Hop Hen c N. split.
  - intros l Hl. apply on_yank_at_char; auto.
    rewrite Hl. apply char_ranges_single.
  - intros init last Hl Hne. split.
    + subst N. rewrite Hl, length_app. simpl.
      destruct init; [congruence|simpl; lia].
    + apply on_yank_at_char; auto. subst N.
      rewrite Hl. now apply char_ranges_multi.
Qed.

Lemma char_mode_range_witness :
  highlights
    (trace_of (run (editor_env Sample.ed)
                 (on_yank default_config (Some Sample.doc) Sample.ev_word) O))
  = [[mkRange (mkPosition 0 1) (mkPosition 0 4)]] /\
  on_yank_at default_config Sample.doc Sample.ev_to_eol 1 1
  = (call WinGetId ;;;
     apply_highlight [mkRange (mkPosition 0 1) (mkPosition 1 0)] 500 ;;;
     record Sample.doc Sample.ev_to_eol 1 1).
Proof.
  split; [vm_compute; reflexivity|].
  apply (proj2 (char_mode_range default_config Sample.doc Sample.ev_to_eol
                  1 1 eq_refl eq_refl eq_refl) [lit "abcd"] (lit "")).
  - reflexivity.
  - discriminate.
Defined.

(** ** Recording after the highlight block *)

(** An operator other than [y] (a delete, a change) skips the highlight
    block: a qualifying capture is appended to the store whatever the
    highlight option and the register type are. *)
Lemma other_operators_record (cfg : Config) (doc : Document) (ev : YankEvent)
    (lnum col : Z) :
  operator ev <> lit "y" ->
  4 <= slen (join_nl (regcontents ev)) ->
  on_yank_at cfg doc ev lnum col
  = call (DbAdd (regcontents ev)
            (if startsWith (regtype ev) [22] then lit "^v" else regtype ev)
            (uri doc ++ [9] ++ of_int lnum ++ [9] ++ of_int col)
            (filetype doc)).
Proof.
  intros Hop Hlen. unfold on_yank_at. cbv zeta.
  apply str_eqb_neq in Hop. rewrite Hop. unfold record. cbv zeta.
  destruct (Z.ltb_spec (slen (join_nl (regcontents ev))) 4); [lia|].
  reflexivity.
Qed.

(** C2 (what the code does): for a [y] yank, the [return] statements of the
    highlight block end the whole callback. With highlighting disabled, or
    with a register type that is neither block, ["v"] nor ["V"], no append
    reaches the store, whatever the content is and however the editor
    answers. *)
Theorem yank_record_lost_by_highlight_return
    (cfg : Config) (doc : option Document) (ev : YankEvent)
    (E : Env) (s : state E) :
  operator ev = lit "y" ->
  highlight_enable cfg = false
  \/ (startsWith (regtype ev) [22] = false
      /\ regtype ev <> lit "v" /\ regtype ev <> lit "V") ->
  records (trace_of (run E (on_yank cfg doc ev) s)) = [].
Proof.
  intros Hop Hcase. apply records_nil, all_calls_run.
  unfold on_yank. destruct doc as [d|]; [|exact I]. cbv zeta.
  destruct (_ >? _); [exact I|].
  apply all_calls_bind; [now apply all_calls_call|]. intros _.
  apply all_calls_bind; [now apply all_calls_call|]. intros pos.
  unfold on_yank_at. cbv zeta. rewrite Hop, str_eqb_refl.
  destruct Hcase as [Hoff|[Hb [Hv HV]]].
  - rewrite Hoff. exact I.
  - destruct (negb _); [exact I|].
    apply all_calls_bind; [now apply all_calls_call|]. intros _.
    apply str_eqb_neq in Hv, HV. rewrite Hb, Hv, HV. exact I.
Qed.

Lemma yank_record_lost_by_highlight_return_witness :
  4 <= slen (join_nl (regcontents Sample.ev_word)) /\
  byte_total (regcontents Sample.ev_word) <= byteLengthLimit Sample.no_highlight /\
  records (trace_of (run (editor_env Sample.ed)
                       (on_yank Sample.no_highlight (Some Sample.doc)
                          Sample.ev_word) O)) = [] /\
  records (trace_of (run (editor_env Sample.ed)
                       (on_yank default_config (Some Sample.doc)
                          Sample.ev_unknown) O)) = [].
Proof.
  split; [vm_compute; discriminate|].
  split; [vm_compute; discriminate|].
  split.
  - apply (yank_record_lost_by_highlight_return Sample.no_highlight
             (Some Sample.doc) Sample.ev_word (editor_env Sample.ed) O).
    + reflexivity.
    + left. reflexivity.
  - apply (yank_record_lost_by_highlight_return default_config
             (Some Sample.doc) Sample.ev_unknown (editor_env Sample.ed) O).
    + reflexivity.
    + right. repeat split; discriminate.
Defined.

(** ** The view around the block traversal *)

Lemma cursor_steps_no_view (t : list exchange) :
  Forall cursor_step (calls t) ->
  restored_views t = [] /\ saved_views t = [].
Proof.
  induction t as [|x t IH]; simpl; [auto|].
  intros H. inversion H as [|? ? Hx Ht]; subst.
  destruct (IH Ht) as [H1 H2]. rewrite H1, H2.
  destruct x as [c r|c]; simpl in *; destruct Hx as [->| ->]; auto.
Qed.

Lemma restored_views_app (t u : list exchange) :
  restored_views (t ++ u) = restored_views t ++ restored_views u.
Proof. unfold restored_views. apply flat_map_app. Qed.

Lemma saved_views_app (t u : list exchange) :
  saved_views (t ++ u) = saved_views t ++ saved_views u.
Proof. unfold saved_views. apply flat_map_app. Qed.

Lemma on_yank_at_block (cfg : Config) (doc : Document) (ev : YankEvent)
    (lnum col : Z) :
  startsWith (regtype ev) [22] = true -> operator ev = lit "y" ->
  highlight_enable cfg = true ->
  on_yank_at cfg doc ev lnum col
  = (call WinGetId ;;;
     ranges <- block_ranges doc (regcontents ev) lnum col ;;
     apply_highlight ranges (highlight_duration cfg) ;;;
     record doc ev lnum col).
Proof.
  intros Hb Hop Hen. unfold on_yank_at. cbv zeta.
  rewrite Hop, Hb, Hen. reflexivity.
Qed.

(** C6 (as the code has it): in block mode the view is saved before the
    traversal and, when every call of the traversal is answered, restored
    after it with the very view that was saved: the calls are
    [winsaveview], [setpos], the [col] and [normal! j] steps, then
    [winrestview]. There is no [try] around the traversal: when one of its
    calls is rejected the callback ends there, and either no restore was
    requested or the rejected call is the restore itself. *)
Theorem block_view_restored_when_traversal_succeeds
    (cfg : Config) (doc : Document) (ev : YankEvent) (lnum col : Z)
    (E : Env) (s : state E) :
  startsWith (regtype ev) [22] = true -> operator ev = lit "y" ->
  highlight_enable cfg = true ->
  on_yank_at cfg doc ev lnum col
  = (call WinGetId ;;;
     ranges <- block_ranges doc (regcontents ev) lnum col ;;
     apply_highlight ranges (highlight_duration cfg) ;;;
     record doc ev lnum col) /\
  match run E (block_ranges doc (regcontents ev) lnum col) s with
  | (Done _, t, _) =>
      exists v mid,
        t = Answered WinSaveView v :: Answered (SetPos lnum col) tt
              :: mid ++ [Answered (WinRestView v) tt]
        /\ Forall cursor_step (calls mid)
  | (_, t, _) =>
      restored_views t = []
      \/ exists v pre, t = pre ++ [Failed (WinRestView v)]
                       /\ saved_views t = [v] /\ restored_views t = [v]
  end.
Proof.
  intros Hb Hop Hen. split; [now apply on_yank_at_block|].
  unfold block_ranges. simpl.
  destruct (answer E WinSaveView s) as [[v|] s1]; [|left; reflexivity].
  destruct (answer E (SetPos lnum col) s1) as [[[]|] s2];
    [|left; reflexivity].
  rewrite run_bind.
  pose proof (all_calls_run E _ cursor_step
                (block_loop doc (regcontents ev) lnum
                   (List.length (regcontents ev)) lnum []) s2
                (all_calls_block_loop cursor_step doc (regcontents ev) lnum
                   (List.length (regcontents ev)) lnum []
                   (or_introl eq_refl) (or_intror eq_refl))) as Hloop.
  destruct (run E (block_loop doc (regcontents ev) lnum
                     (List.length (regcontents ev)) lnum []) s2)
    as [[[rs| |c] mid] s3]; unfold trace_of in Hloop; simpl in Hloop;
    destruct (cursor_steps_no_view mid Hloop) as [Hr Hs].
  - simpl. destruct (answer E (WinRestView v) s3) as [[[]|] s4].
    + exists v, mid. split; [reflexivity|exact Hloop].
    + right. exists v.
      exists (Answered WinSaveView v :: Answered (SetPos lnum col) tt :: mid).
      split; [reflexivity|]. simpl.
      rewrite saved_views_app, restored_views_app, Hr, Hs.
      split; reflexivity.
  - left. simpl. exact Hr.
  - left. simpl. exact Hr.
Qed.

Lemma block_view_restored_when_traversal_succeeds_witness :
  on_yank_at default_config Sample.doc Sample.ev_block 1 1
  = (call WinGetId ;;;
     ranges <- block_ranges Sample.doc (regcontents Sample.ev_block) 1 1 ;;
     apply_highlight ranges (highlight_duration default_config) ;;;
     record Sample.doc Sample.ev_block 1 1) /\
  exists v mid,
    trace_of (run (editor_env Sample.ed)
                (block_ranges Sample.doc (regcontents Sample.ev_block) 1 1) O)
    = Answered WinSaveView v :: Answered (SetPos 1 1) tt
        :: mid ++ [Answered (WinRestView v) tt]
    /\ Forall cursor_step (calls mid).
Proof.
  apply (block_view_restored_when_traversal_succeeds default_config
           Sample.doc Sample.ev_block 1 1 (editor_env Sample.ed) O);
    reflexivity.
Defined.

(** C6 (counterexample): a block yank of two lines, and an editor whose
    connection drops at the first [normal! j]. The view was saved, the
    callback ends with the rejection, and no restore is ever requested. *)
Lemma block_view_not_restored_counterexample :
  let r := run (editor_env Sample.ed_dropping)
             (on_yank default_config (Some Sample.doc) Sample.ev_block) O in
  outcome_of r = Rejected NormalJ /\
  saved_views (trace_of r) = [editor_view] /\
  restored_views (trace_of r) = [].
Proof. vm_compute. repeat split. Qed.

(** ** Ranges and the bounds of the document *)

Lemma line_loop_spec (doc : Document) (n : nat) (i : Z) (acc : list Range) :
  line_loop doc n i acc
  = acc ++ map (fun k => let j := i + Z.of_nat k in
                         Range_create4 (j - 1) 0 (j - 1)
                           (slen (getline doc (j - 1))))
             (seq 0 n).
Proof.
  revert i acc. induction n as [|n IH]; intros i acc; simpl.
  - now rewrite app_nil_r.
  - rewrite IH, <- app_assoc. simpl. f_equal.
    rewrite Z.add_0_r. f_equal.
    rewrite <- seq_shift, map_map. apply map_ext. intros k. cbv zeta.
    replace (i + 1 + Z.of_nat k) with (i + Z.of_nat (S k)) by lia.
    reflexivity.
Qed.

Lemma getline_in_doc (doc : Document) (i : Z) :
  0 <= i < Z.of_nat (List.length (lines doc)) ->
  position_in_doc doc (mkPosition i 0) = true /\
  position_in_doc doc (mkPosition i (slen (getline doc i))) = true.
Proof.
  intros Hi. unfold position_in_doc. simpl.
  assert (H0 : 0 <= slen (getline doc i)) by (unfold slen; lia).
  split; repeat (apply andb_true_iff; split); lia.
Qed.

Lemma line_ranges_spec (doc : Document) (regcontents : list jsstring)
    (lnum : Z) (r : Range) :
  In r (line_ranges doc regcontents lnum) ->
  exists i,
    lnum <= i < lnum + Z.of_nat (List.length regcontents) /\
    r = mkRange (mkPosition (i - 1) 0)
          (mkPosition (i - 1) (slen (getline doc (i - 1)))).
Proof.
  unfold line_ranges. rewrite line_loop_spec. simpl.
  intros Hin. apply in_map_iff in Hin as [k [<- Hk]].
  apply in_seq in Hk. exists (lnum + Z.of_nat k). split; [lia|reflexivity].
Qed.

Lemma on_yank_at_line (cfg : Config) (doc : Document) (ev : YankEvent)
    (lnum col : Z) :
  regtype ev = lit "V" -> operator ev = lit "y" ->
  highlight_enable cfg = true ->
  on_yank_at cfg doc ev lnum col
  = (call WinGetId ;;;
     apply_highlight (line_ranges doc (regcontents ev) lnum)
       (highlight_duration cfg) ;;;
     record doc ev lnum col).
Proof.
  intros Hreg Hop Hen. unfold on_yank_at. cbv zeta.
  rewrite Hop, Hreg, Hen. reflexivity.
Qed.

(** ** UTF-8: decoding a prefix of an encoding *)

Section Utf8.
Import Buffer.

Lemma decode_app (st : option pending) (bs1 bs2 : list Z) :
  decode st (bs1 ++ bs2)
  = fst (feed_all st bs1) ++ decode (snd (feed_all st bs1)) bs2.
Proof.
  revert st. induction bs1 as [|b r IH]; intros st; simpl; [reflexivity|].
  destruct (feed st b) as [out st']. rewrite IH.
  destruct (feed_all st' r) as [out' st'']. simpl. now rewrite app_assoc.
Qed.

Lemma lor_add (a x k : Z) :
  0 <= k -> 0 <= x < 2 ^ k -> Z.lor (a * 2 ^ k) x = a * 2 ^ k + x.
Proof.
  intros Hk Hx. pose proof (Z.add_lor_land (a * 2 ^ k) x) as Hadd.
  assert (Hland : Z.land (a * 2 ^ k) x = 0).
  { apply Z.bits_inj'. intros n Hn. rewrite Z.land_spec, Z.bits_0.
    destruct (Z.lt_ge_cases n k) as [Hlt|Hge].
    - rewrite Z.mul_pow2_bits_low by lia. reflexivity.
    - rewrite <- (Z.mod_small x (2 ^ k)) by lia.
      rewrite Z.mod_pow2_bits_high by lia. apply andb_false_r. }
  lia.
Qed.

Lemma lor_80 x : 0 <= x < 64 -> Z.lor 0x80 x = 0x80 + x.
Proof. intros H. apply (lor_add 2 x 6); lia. Qed.
Lemma lor_C0 x : 0 <= x < 64 -> Z.lor 0xC0 x = 0xC0 + x.
Proof. intros H. apply (lor_add 3 x 6); lia. Qed.
Lemma lor_E0 x : 0 <= x < 16 -> Z.lor 0xE0 x = 0xE0 + x.
Proof. intros H. apply (lor_add 14 x 4); lia. Qed.
Lemma lor_F0 x : 0 <= x < 8 -> Z.lor 0xF0 x = 0xF0 + x.
Proof. intros H. apply (lor_add 30 x 3); lia. Qed.
Lemma lor_shift6 cp y : 0 <= y < 64 -> Z.lor (Z.shiftl cp 6) y = cp * 64 + y.
Proof. intros H. rewrite Z.shiftl_mul_pow2 by lia. apply (lor_add cp y 6); lia. Qed.
Lemma land_3F b : Z.land b 0x3F = b mod 64.
Proof. change 0x3F with (Z.ones 6). apply Z.land_ones. lia. Qed.
Lemma land_1F b : Z.land b 0x1F = b mod 32.
Proof. change 0x1F with (Z.ones 5). apply Z.land_ones. lia. Qed.
Lemma land_F b : Z.land b 0xF = b mod 16.
Proof. change 0xF with (Z.ones 4). apply Z.land_ones. lia. Qed.
Lemma land_7 b : Z.land b 0x7 = b mod 8.
Proof. change 0x7 with (Z.ones 3). apply Z.land_ones. lia. Qed.
Lemma shr6 c : Z.shiftr c 6 = c / 64.
Proof. apply Z.shiftr_div_pow2. lia. Qed.
Lemma shr12 c : Z.shiftr c 12 = c / 4096.
Proof. apply Z.shiftr_div_pow2. lia. Qed.
Lemma shr18 c : Z.shiftr c 18 = c / 262144.
Proof. apply Z.shiftr_div_pow2. lia. Qed.

Lemma encode_cp_arith c : scalar c ->
  encode_cp c =
  if c <? 0x80 then [c]
  else if c <? 0x800 then [0xC0 + c / 64; 0x80 + c mod 64]
  else if c <? 0x10000 then [0xE0 + c / 4096; 0x80 + (c / 64) mod 64; 0x80 + c mod 64]
  else [0xF0 + c / 262144; 0x80 + (c / 4096) mod 64; 0x80 + (c / 64) mod 64; 0x80 + c mod 64].
Proof.
  intros [Hc Hs]. unfold encode_cp.
  rewrite !land_3F, !shr6, !shr12, !shr18.
  destruct (Z.ltb_spec c 0x80); [reflexivity|].
  destruct (Z.ltb_spec c 0x800).
  { rewrite lor_C0, lor_80; [reflexivity| |]; 
    try (apply Z.mod_pos_bound; lia). split; [apply Z.div_pos; lia|].
    apply Z.div_lt_upper_bound; lia. }
  destruct (Z.ltb_spec c 0x10000).
  { rewrite lor_E0, !lor_80; [reflexivity| | |];
    try (apply Z.mod_pos_bound; lia). split; [apply Z.div_pos; lia|].
    apply Z.div_lt_upper_bound; lia. }
  rewrite lor_F0, !lor_80; [reflexivity| | | |];
    try (apply Z.mod_pos_bound; lia). split; [apply Z.div_pos; lia|].
    apply Z.div_lt_upper_bound; lia.
Qed.

Lemma lead_1 b : b <= 0x7F -> lead b = ([b], None).
Proof. intros H. unfold lead. destruct (Z.leb_spec b 0x7F); [reflexivity|lia]. Qed.

Lemma lead_2 b : 0xC2 <= b <= 0xDF ->
  lead b = ([], Some (Pending (b mod 32) 1 0x80 0xBF)).
Proof.
  intros H. unfold lead. rewrite land_1F.
  destruct (Z.leb_spec b 0x7F); [lia|].
  destruct (Z.leb_spec 0xC2 b); [|lia].
  destruct (Z.leb_spec b 0xDF); [|lia]. reflexivity.
Qed.

Lemma lead_3 b : 0xE0 <= b <= 0xEF ->
  lead b = ([], Some (Pending (b mod 16) 2
                        (if b =? 0xE0 then 0xA0 else 0x80)
                        (if b =? 0xED then 0x9F else 0xBF))).
Proof.
  intros H. unfold lead. rewrite land_F.
  destruct (Z.leb_spec b 0x7F); [lia|].
  destruct (Z.leb_spec 0xC2 b); [|lia].
  destruct (Z.leb_spec b 0xDF); [lia|]. simpl.
  destruct (Z.leb_spec 0xE0 b); [|lia].
  destruct (Z.leb_spec b 0xEF); [|lia]. reflexivity.
Qed.

Lemma lead_4 b : 0xF0 <= b <= 0xF4 ->
  lead b = ([], Some (Pending (b mod 8) 3
                        (if b =? 0xF0 then 0x90 else 0x80)
                        (if b =? 0xF4 then 0x8F else 0xBF))).
Proof.
  intros H. unfold lead. rewrite land_7.
  destruct (Z.leb_spec b 0x7F); [lia|].
  destruct (Z.leb_spec 0xC2 b); [|lia].
  destruct (Z.leb_spec b 0xDF); [lia|]. simpl.
  destruct (Z.leb_spec 0xE0 b); [|lia].
  destruct (Z.leb_spec b 0xEF); [lia|]. simpl.
  destruct (Z.leb_spec 0xF0 b); [|lia].
  destruct (Z.leb_spec b 0xF4); [|lia]. reflexivity.
Qed.

Lemma feed_cont cp n lo hi b : lo <= b <= hi ->
  feed (Some (Pending cp n lo hi)) b =
  match n with
  | S (S m) => ([], Some (Pending (cp * 64 + b mod 64) (S m) 0x80 0xBF))
  | _ => (units_of_cp (cp * 64 + b mod 64), None)
  end.
Proof.
  intros H. unfold feed. cbn [p_lower p_upper p_cp p_needed].
  destruct (Z.leb_spec lo b); [|lia].
  destruct (Z.leb_spec b hi); [|lia]. cbn [andb].
  rewrite land_3F, lor_shift6 by (apply Z.mod_pos_bound; lia).
  reflexivity.
Qed.

Ltac arith := Z.div_mod_to_equations; lia.

(** The decoder reads back the bytes of a scalar value, and stops half way
    through them with a pending sequence and no output. *)
Lemma units_of_cp_bmp c : c < 0x10000 -> units_of_cp c = [c].
Proof.
  intros H. unfold units_of_cp.
  destruct (Z.ltb_spec c 0x10000); [reflexivity|lia].
Qed.

Lemma feed_all_encode c : scalar c ->
  feed_all None (encode_cp c) = (units_of_cp c, None) /\
  forall j, (0 < j < List.length (encode_cp c))%nat ->
    exists p, feed_all None (firstn j (encode_cp c)) = ([], Some p).
Proof.
  intros Hs. rewrite (encode_cp_arith c Hs). destruct Hs as [Hc Hs].
  destruct (Z.ltb_spec c 0x80).
  { split.
    - cbn [feed_all firstn]; change (feed None) with lead. rewrite lead_1 by lia.
      now rewrite units_of_cp_bmp by lia.
    - cbn [List.length]. intros j Hj. lia. }
  destruct (Z.ltb_spec c 0x800).
  { split.
    - cbn [feed_all firstn]; change (feed None) with lead. rewrite lead_2 by arith. rewrite feed_cont by arith.
      cbn [app]. rewrite app_nil_r. do 2 f_equal. arith.
    - intros j Hj. cbn [List.length] in Hj. assert (j = 1%nat) as -> by lia.
      cbn [feed_all firstn]; change (feed None) with lead.
      rewrite lead_2 by arith. eexists. reflexivity. }
  destruct (Z.ltb_spec c 0x10000).
  { assert (Hb1 : 0xE0 <= 0xE0 + c / 4096 <= 0xEF) by arith.
    assert (Hb2 : (if 0xE0 + c / 4096 =? 0xE0 then 0xA0 else 0x80)
                  <= 0x80 + (c / 64) mod 64
                  <= (if 0xE0 + c / 4096 =? 0xED then 0x9F else 0xBF)).
    { destruct (Z.eqb_spec (0xE0 + c / 4096) 0xE0);
      destruct (Z.eqb_spec (0xE0 + c / 4096) 0xED); arith. }
    split.
    - cbn [feed_all firstn]; change (feed None) with lead. rewrite lead_3 by exact Hb1. rewrite feed_cont by exact Hb2.
      rewrite feed_cont by arith. cbn [app]. rewrite app_nil_r.
      do 2 f_equal. arith.
    - intros j Hj. cbn [List.length] in Hj.
      assert (j = 1 \/ j = 2)%nat as [-> | ->] by lia;
      cbn [feed_all firstn]; change (feed None) with lead.
      + rewrite lead_3 by exact Hb1. eexists. reflexivity.
      + rewrite lead_3 by exact Hb1. rewrite feed_cont by exact Hb2.
        eexists. reflexivity. }
  assert (Hb1 : 0xF0 <= 0xF0 + c / 262144 <= 0xF4) by arith.
  assert (Hb2 : (if 0xF0 + c / 262144 =? 0xF0 then 0x90 else 0x80)
                <= 0x80 + (c / 4096) mod 64
                <= (if 0xF0 + c / 262144 =? 0xF4 then 0x8F else 0xBF)).
  { destruct (Z.eqb_spec (0xF0 + c / 262144) 0xF0);
    destruct (Z.eqb_spec (0xF0 + c / 262144) 0xF4); arith. }
  split.
  - cbn [feed_all firstn]; change (feed None) with lead. rewrite lead_4 by exact Hb1. rewrite feed_cont by exact Hb2.
    rewrite feed_cont by arith. rewrite feed_cont by arith.
    cbn [app]. rewrite app_nil_r. do 2 f_equal. arith.
  - intros j Hj. cbn [List.length] in Hj.
    assert (j = 1 \/ j = 2 \/ j = 3)%nat as [-> | [-> | ->]] by lia;
      cbn [feed_all firstn]; change (feed None) with lead.
    + rewrite lead_4 by exact Hb1. eexists. reflexivity.
    + rewrite lead_4 by exact Hb1. rewrite feed_cont by exact Hb2.
      eexists. reflexivity.
    + rewrite lead_4 by exact Hb1. rewrite feed_cont by exact Hb2.
      rewrite feed_cont by arith. eexists. reflexivity.
Qed.

Lemma units_of_cp_length c :
  List.length (units_of_cp c) = if c <? 0x10000 then 1%nat else 2%nat.
Proof. unfold units_of_cp. destruct (c <? 0x10000); reflexivity. Qed.

Lemma decode_chunk c bs k : scalar c ->
  exists k',
    (List.length (decode None (firstn k (encode_cp c ++ bs)))
     <= List.length (units_of_cp c)
        + List.length (decode None (firstn k' bs)))%nat.
Proof.
  intros Hs. destruct (feed_all_encode c Hs) as [Hfull Hpart].
  assert (Hunits : (1 <= List.length (units_of_cp c))%nat).
  { rewrite units_of_cp_length. destruct (c <? 0x10000); lia. }
  destruct (Nat.le_gt_cases (List.length (encode_cp c)) k) as [Hk|Hk].
  - exists (k - List.length (encode_cp c))%nat.
    rewrite firstn_app, firstn_all2 by exact Hk.
    rewrite decode_app, Hfull. cbn [fst snd]. rewrite length_app. lia.
  - exists O. rewrite firstn_app.
    replace (k - List.length (encode_cp c))%nat with O by lia.
    rewrite firstn_O, app_nil_r.
    destruct k as [|k].
    + simpl. lia.
    + destruct (Hpart (S k)) as [p Hp]; [lia|].
      rewrite <- (app_nil_r (firstn (S k) (encode_cp c))).
      rewrite decode_app, Hp. simpl. lia.
Qed.

Lemma scalar_FFFD : scalar 0xFFFD.
Proof. unfold scalar. lia. Qed.

Lemma decode_prefix_length (n : nat) :
  forall s, (List.length s <= n)%nat -> well_formed s ->
  forall k,
    (List.length (decode None (firstn k (from s))) <= List.length s)%nat.
Proof.
  induction n as [|n IH]; intros s Hlen Hwf k.
  { destruct s; [|simpl in Hlen; lia]. simpl. rewrite firstn_nil. simpl. lia. }
  destruct s as [|u r]; [simpl; rewrite firstn_nil; simpl; lia|].
  inversion Hwf as [|? ? Hu Hr]; subst.
  simpl in Hlen. cbn [from].
  assert (Hrep : forall k',
            (List.length (decode None (firstn k' (encode_cp 0xFFFD ++ from r)))
             <= S (List.length r))%nat).
  { intros k'. destruct (decode_chunk 0xFFFD (from r) k' scalar_FFFD)
      as [k'' Hk'']. specialize (IH r ltac:(lia) Hr k'').
    rewrite units_of_cp_length in Hk''. simpl in Hk''. simpl. lia. }
  destruct (is_high u) eqn:Hh.
  - destruct r as [|v r'].
    + rewrite <- (app_nil_r (encode_cp 0xFFFD)).
      destruct (decode_chunk 0xFFFD [] k scalar_FFFD) as [k' Hk'].
      rewrite firstn_nil, units_of_cp_length in Hk'. simpl in Hk'. simpl. lia.
    + destruct (is_low v) eqn:Hl; [|apply Hrep].
      inversion Hr as [|? ? Hv Hr']; subst.
      unfold is_high, is_low in Hh, Hl.
      set (cp := 0x10000 + (u - 0xD800) * 0x400 + (v - 0xDC00)).
      assert (Hcp : scalar cp) by (unfold scalar, cp; lia).
      destruct (decode_chunk cp (from r') k Hcp) as [k' Hk'].
      specialize (IH r' ltac:(simpl in Hlen; lia) Hr' k').
      rewrite units_of_cp_length in Hk'.
      destruct (cp <? 0x10000); simpl; lia.
  - destruct (is_low u) eqn:Hl; [apply Hrep|].
    assert (Hsc : scalar u).
    { unfold scalar, is_high, is_low in *. lia. }
    destruct (decode_chunk u (from r) k Hsc) as [k' Hk'].
    specialize (IH r ltac:(lia) Hr k').
    rewrite units_of_cp_length in Hk'.
    destruct (Z.ltb_spec u 0x10000); [simpl; lia|lia].
Qed.

Lemma byteSlice_prefix_length (s : jsstring) (e : Z) :
  well_formed s -> slen (byteSlice s 0 (Some e)) <= slen s.
Proof.
  intros Hwf. unfold byteSlice, Buffer.toString, slice, slen.
  replace (rel_index (Z.of_nat (List.length (from s))) 0) with 0
    by (unfold rel_index; simpl; lia).
  simpl skipn.
  pose proof (decode_prefix_length (List.length s) s (le_n _) Hwf
                (Z.to_nat (rel_index (Z.of_nat (List.length (from s))) e - 0))).
  lia.
Qed.

End Utf8.

(** ** Where the produced ranges start *)

Lemma getline_well_formed (doc : Document) (i : Z) :
  doc_well_formed doc -> well_formed (getline doc i).
Proof.
  intros Hwf. unfold getline, index.
  destruct (i <? 0); [constructor|].
  destruct (nth_error (lines doc) (Z.to_nat i)) as [l|] eqn:Hl;
    [|constructor].
  apply nth_error_In in Hl. unfold doc_well_formed in Hwf.
  rewrite Forall_forall in Hwf. now apply Hwf.
Qed.

Lemma translated_column_in_line (doc : Document) (i e : Z) :
  doc_well_formed doc ->
  0 <= slen (byteSlice (getline doc i) 0 (Some e)) <= slen (getline doc i).
Proof.
  intros Hwf. split; [unfold slen; lia|].
  apply byteSlice_prefix_length. now apply getline_well_formed.
Qed.

Lemma block_loop_starts (doc : Document) (regcontents : list jsstring)
    (lnum : Z) (E : Env) :
  doc_well_formed doc ->
  forall n i acc s rs t s',
    run E (block_loop doc regcontents lnum n i acc) s = (Done rs, t, s') ->
    Forall (starts_in_line doc) acc ->
    Forall (starts_in_line doc) rs.
Proof.
  intros Hwf. induction n as [|n IH]; intros i acc s rs t s' Hrun Hacc.
  - simpl in Hrun. now inversion Hrun; subst.
  - simpl in Hrun.
    destruct (answer E ColDot s) as [[c|] s1]; [|discriminate].
    destruct (index regcontents (i - lnum)) as [fragment|];
      [|discriminate].
    simpl in Hrun.
    destruct (answer E NormalJ s1) as [[[]|] s2]; [|discriminate].
    destruct (run E (block_loop doc regcontents lnum n (i + 1) _) s2)
      as [[o1 t1] s3] eqn:Hloop.
    inversion Hrun; subst.
    apply (IH _ _ _ _ _ _ Hloop).
    apply Forall_app. split; [exact Hacc|].
    constructor; [|constructor].
    unfold starts_in_line. simpl. now apply translated_column_in_line.
Qed.

(** C9 (as the code has it): in Line mode every produced range lies on one
    of the affected lines, from character 0 to the length of the live line,
    and is inside the document whenever the affected lines are lines of the
    document. In Char and Block mode every produced range starts at a
    character that does not exceed the length of the live line it starts on
    (the byte column is translated on that line); the end of such a range is
    computed from the lengths of the captured fragments. *)
Theorem produced_ranges_and_document_bounds
    (doc : Document) (regcontents : list jsstring) (lnum col : Z) :
  doc_well_formed doc ->
  let N := Z.of_nat (List.length regcontents) in
  (forall r, In r (line_ranges doc regcontents lnum) ->
     character (range_start r) = 0 /\
     line (range_end r) = line (range_start r) /\
     character (range_end r) = slen (getline doc (line (range_end r))) /\
     lnum - 1 <= line (range_start r) < lnum - 1 + N /\
     (1 <= lnum -> lnum - 1 + N <= Z.of_nat (List.length (lines doc)) ->
      range_in_doc doc r = true)) /\
  (forall rs r,
     char_ranges regcontents lnum
       (slen (byteSlice (getline doc (lnum - 1)) 0 (Some col))) = Some rs ->
     In r rs ->
     line (range_start r) = lnum - 1 /\ starts_in_line doc r /\
     (1 <= lnum <= Z.of_nat (List.length (lines doc)) ->
      position_in_doc doc (range_start r) = true)) /\
  (forall (E : Env) (s s' : state E) rs t r,
     run E (block_ranges doc regcontents lnum col) s = (Done rs, t, s') ->
     In r rs -> starts_in_line doc r).
Proof.
  intros Hwf N. split; [|split].
  - intros r Hr. apply line_ranges_spec in Hr as [i [Hi ->]]. simpl.
    repeat split; try lia.
    intros H1 H2. unfold range_in_doc. simpl.
    destruct (getline_in_doc doc (i - 1)) as [Ha Hb]; [lia|].
    now rewrite Ha, Hb.
  - intros rs r Hrs Hr. unfold char_ranges in Hrs. cbv zeta in Hrs.
    destruct (index regcontents _) as [fragment|]; [|discriminate].
    inversion Hrs; subst. destruct Hr as [<-|[]]. simpl.
    pose proof (translated_column_in_line doc (lnum - 1) col Hwf) as Hc.
    split; [reflexivity|]. split; [exact Hc|].
    intros Hl. unfold position_in_doc. simpl.
    repeat (apply andb_true_iff; split); lia.
  - intros E s s' rs t r Hrun Hr. unfold block_ranges in Hrun.
    simpl in Hrun.
    destruct (answer E WinSaveView s) as [[v|] s1]; [|discriminate].
    destruct (answer E (SetPos lnum col) s1) as [[[]|] s2]; [|discriminate].
    rewrite run_bind in Hrun.
    destruct (run E (block_loop doc regcontents lnum
                       (List.length regcontents) lnum []) s2)
      as [[[rs1| |c] t1] s3] eqn:Hloop; try discriminate.
    simpl in Hrun.
    destruct (answer E (WinRestView v) s3) as [[[]|] s4]; [|discriminate].
    inversion Hrun; subst.
    pose proof (block_loop_starts doc regcontents lnum E Hwf _ _ _ _ _ _ _
                  Hloop (Forall_nil _)) as Hall.
    rewrite Forall_forall in Hall. now apply Hall.
Qed.

Lemma produced_ranges_and_document_bounds_witness :
  range_in_doc Sample.doc (mkRange (mkPosition 0 0) (mkPosition 0 4)) = true.
Proof.
  assert (Hwf : doc_well_formed Sample.doc).
  { repeat constructor; simpl; lia. }
  apply (proj1 (produced_ranges_and_document_bounds Sample.doc
                  (regcontents Sample.ev_line) 1 1 Hwf)
           (mkRange (mkPosition 0 0) (mkPosition 0 4))).
  - left. reflexivity.
  - lia.
  - simpl. lia.
Defined.

(** C9 (counterexample): the line ["abcd"] is the whole buffer and [v$y]
    yanks it with its line break, so that two fragments are captured. The
    one range the handler highlights ends on line 1, and the document has
    line 0 only. *)
Lemma produced_range_outside_document_counterexample :
  highlights
    (trace_of (run (editor_env Sample.ed)
                 (on_yank default_config (Some Sample.doc)
                    Sample.ev_to_eol) O))
  = [[mkRange (mkPosition 0 1) (mkPosition 1 0)]] /\
  List.length (lines Sample.doc) = 1%nat /\
  range_in_doc Sample.doc (mkRange (mkPosition 0 1) (mkPosition 1 0)) = false.
Proof. vm_compute. repeat split. Qed.


(** * Further properties *)

Section Utf8RoundTrip.
Import Buffer.

Ltac arith2 := Z.div_mod_to_equations; lia.

Lemma units_of_pair (u v : Z) :
  0xD800 <= u <= 0xDBFF -> 0xDC00 <= v <= 0xDFFF ->
  units_of_cp (0x10000 + (u - 0xD800) * 0x400 + (v - 0xDC00)) = [u; v].
Proof.
  intros Hu Hv. unfold units_of_cp.
  destruct (Z.ltb_spec (0x10000 + (u - 0xD800) * 0x400 + (v - 0xDC00)) 0x10000);
    [lia|].
  rewrite Z.shiftr_div_pow2 by lia.
  change 0x3FF with (Z.ones 10). rewrite Z.land_ones by lia.
  change (2 ^ 10) with 1024.
  f_equal; [arith2|f_equal; arith2].
Qed.

Lemma decode_from_toWellFormed (n : nat) :
  forall s, (List.length s <= n)%nat -> well_formed s ->
  decode None (from s) = toWellFormed s.
Proof.
  induction n as [|n IH]; intros s Hlen Hwf.
  { destruct s; [reflexivity|simpl in Hlen; lia]. }
  destruct s as [|u r]; [reflexivity|].
  inversion Hwf as [|? ? Hu Hr]; subst. simpl in Hlen.
  assert (Hrep : decode None (encode_cp 0xFFFD ++ from r)
                 = 0xFFFD :: toWellFormed r).
  { rewrite decode_app.
    rewrite (proj1 (feed_all_encode 0xFFFD scalar_FFFD)). cbn [fst snd].
    rewrite IH by (auto; lia). reflexivity. }
  cbn [from toWellFormed].
  destruct (is_high u) eqn:Hh.
  - destruct r as [|v r'].
    + rewrite <- (app_nil_r (encode_cp 0xFFFD)), decode_app.
      rewrite (proj1 (feed_all_encode 0xFFFD scalar_FFFD)). reflexivity.
    + destruct (is_low v) eqn:Hl; [|exact Hrep].
      inversion Hr as [|? ? Hv Hr']; subst.
      unfold is_high, is_low in Hh, Hl.
      assert (Hcp : scalar (0x10000 + (u - 0xD800) * 0x400 + (v - 0xDC00)))
        by (unfold scalar; lia).
      rewrite decode_app, (proj1 (feed_all_encode _ Hcp)). cbn [fst snd].
      rewrite units_of_pair by lia.
      rewrite IH by (auto; simpl in Hlen; lia). reflexivity.
  - destruct (is_low u) eqn:Hl; [exact Hrep|].
    assert (Hsc : scalar u) by (unfold scalar, is_high, is_low in *; lia).
    rewrite decode_app, (proj1 (feed_all_encode _ Hsc)). cbn [fst snd].
    rewrite units_of_cp_bmp by lia.
    rewrite IH by (auto; lia). reflexivity.
Qed.

Lemma slice_whole A (xs : list A) :
  slice xs 0 (Z.of_nat (List.length xs)) = xs.
Proof.
  unfold slice, rel_index.
  destruct (Z.ltb_spec 0 0); [lia|].
  destruct (Z.ltb_spec (Z.of_nat (List.length xs)) 0); [lia|].
  rewrite Z.min_id, Z.min_l by lia. simpl. apply firstn_all2. lia.
Qed.

Lemma toWellFormed_length (n : nat) :
  forall s, (List.length s <= n)%nat ->
  List.length (toWellFormed s) = List.length s.
Proof.
  induction n as [|n IH]; intros s Hlen.
  { destruct s; [reflexivity|simpl in Hlen; lia]. }
  destruct s as [|u r]; [reflexivity|]. simpl in Hlen. cbn [toWellFormed].
  destruct (is_high u).
  - destruct r as [|v r']; [reflexivity|]. cbn [List.length] in *.
    destruct (is_low v); cbn [List.length]; rewrite IH;
      cbn [List.length]; lia.
  - destruct (is_low u); cbn [List.length]; rewrite IH; lia.
Qed.

Lemma toWellFormed_id (s : jsstring) :
  Forall (fun u => is_high u = false /\ is_low u = false) s ->
  toWellFormed s = s.
Proof.
  induction 1 as [|u r [Hh Hl] Hr IH]; [reflexivity|].
  cbn [toWellFormed]. now rewrite Hh, Hl, IH.
Qed.

(** X1: [byteSlice(s, 0)] with no end, on a well-formed string, gives the
    string back with every lone surrogate replaced by U+FFFD: the same number
    of code units, and the very same string when it holds no surrogate. *)
Theorem byteSlice_whole_round_trip (s : jsstring) :
  well_formed s ->
  byteSlice s 0 None = toWellFormed s /\
  slen (byteSlice s 0 None) = slen s /\
  (Forall (fun u => is_high u = false /\ is_low u = false) s ->
   byteSlice s 0 None = s).
Proof.
  intros Hwf.
  assert (H : byteSlice s 0 None = toWellFormed s).
  { unfold byteSlice, toString. rewrite slice_whole.
    now apply (decode_from_toWellFormed (List.length s)). }
  split; [exact H|]. split.
  - rewrite H. unfold slen. now rewrite (toWellFormed_length (List.length s)).
  - intros Hno. rewrite H. now apply toWellFormed_id.
Qed.

End Utf8RoundTrip.

Section Utf8Sizes.
Import Buffer.

Lemma from_ascii (s : jsstring) : is_ascii s -> from s = s.
Proof.
  induction 1 as [|u r Hu Hr IH]; [reflexivity|]. cbn [from].
  unfold is_high, is_low, encode_cp.
  destruct (Z.leb_spec 0xD800 u); [lia|]. cbn [andb].
  destruct (Z.leb_spec 0xDC00 u); [lia|]. cbn [andb].
  destruct (Z.ltb_spec u 0x80); [|lia]. now rewrite IH.
Qed.

Lemma decode_ascii (bs : list Z) : is_ascii bs -> decode None bs = bs.
Proof.
  induction 1 as [|b r Hb Hr IH]; [reflexivity|]. cbn [decode].
  change (feed None b) with (lead b). rewrite lead_1 by lia.
  now rewrite IH.
Qed.

Lemma slice_ascii (s : jsstring) (a b : Z) : is_ascii s -> is_ascii (slice s a b).
Proof.
  unfold is_ascii, slice. rewrite !Forall_forall. intros H x Hx.
  apply H. now apply In_firstn, In_skipn in Hx.
Qed.

(** X2: on a string of ASCII characters byte offsets are character
    offsets: [byteSlice] is [slice] with the same bounds, and the UTF-8 byte
    length is the length of the string. *)
Theorem byteSlice_ascii (s : jsstring) (start : Z) (stop : option Z) :
  is_ascii s ->
  byteSlice s start stop
  = slice s start (match stop with Some e => e | None => slen s end) /\
  byteLength s = slen s.
Proof.
  intros Ha. unfold byteSlice, toString, byteLength, slen.
  rewrite (from_ascii s Ha). split; [|reflexivity].
  apply decode_ascii, slice_ascii, Ha.
Qed.

Lemma encode_cp_length (c : Z) : scalar c ->
  (1 <= List.length (encode_cp c) <= 4)%nat /\
  (c < 0x10000 -> (List.length (encode_cp c) <= 3)%nat).
Proof.
  intros Hs. rewrite (encode_cp_arith c Hs).
  destruct (Z.ltb_spec c 0x80); [simpl; lia|].
  destruct (Z.ltb_spec c 0x800); [simpl; lia|].
  destruct (Z.ltb_spec c 0x10000); simpl; lia.
Qed.

Lemma from_length (n : nat) :
  forall s, (List.length s <= n)%nat -> well_formed s ->
  (List.length s <= List.length (from s) <= 3 * List.length s)%nat.
Proof.
  induction n as [|n IH]; intros s Hlen Hwf.
  { destruct s; [simpl; lia|simpl in Hlen; lia]. }
  destruct s as [|u r]; [simpl; lia|].
  inversion Hwf as [|? ? Hu Hr]; subst. cbn [List.length] in *.
  pose proof (encode_cp_length 0xFFFD scalar_FFFD) as [Hf1 Hf2].
  specialize (Hf2 ltac:(lia)).
  assert (Hrep : (S (List.length r)
                  <= List.length (encode_cp 0xFFFD ++ from r)
                  <= 3 * S (List.length r))%nat).
  { rewrite length_app. specialize (IH r ltac:(lia) Hr). lia. }
  cbn [from].
  destruct (is_high u) eqn:Hh.
  - destruct r as [|v r']; [cbn [List.length]; lia|].
    destruct (is_low v) eqn:Hl; [|exact Hrep].
    inversion Hr as [|? ? Hv Hr']; subst. cbn [List.length] in *.
    unfold is_high, is_low in Hh, Hl.
    assert (Hcp : scalar (0x10000 + (u - 0xD800) * 0x400 + (v - 0xDC00)))
      by (unfold scalar; lia).
    pose proof (encode_cp_length _ Hcp) as [Hc1 _].
    assert (Hc4 : (4 <= List.length
                     (encode_cp (0x10000 + (u - 0xD800) * 0x400
                                 + (v - 0xDC00))))%nat).
    { rewrite (encode_cp_arith _ Hcp).
      destruct (Z.ltb_spec (0x10000 + (u - 0xD800) * 0x400 + (v - 0xDC00))
                  0x80); [lia|].
      destruct (Z.ltb_spec (0x10000 + (u - 0xD800) * 0x400 + (v - 0xDC00))
                  0x800); [lia|].
      destruct (Z.ltb_spec (0x10000 + (u - 0xD800) * 0x400 + (v - 0xDC00))
                  0x10000); [lia|]. simpl. lia. }
    rewrite length_app. specialize (IH r' ltac:(lia) Hr'). lia.
  - destruct (is_low u) eqn:Hl; [exact Hrep|].
    assert (Hsc : scalar u) by (unfold scalar, is_high, is_low in *; lia).
    pose proof (encode_cp_length u Hsc) as [Hc1 Hc2].
    specialize (Hc2 ltac:(lia)).
    rewrite length_app. specialize (IH r ltac:(lia) Hr). lia.
Qed.

Lemma byte_total_from (rc : list jsstring) (z : Z) :
  fold_left (fun len s => len + byteLength s) rc z
  = z + byte_total rc.
Proof.
  unfold byte_total. revert z.
  induction rc as [|l rc IH]; intros z; simpl; [lia|].
  rewrite IH, (IH (byteLength l)). lia.
Qed.

Lemma byte_total_cons (l : jsstring) (rc : list jsstring) :
  byte_total (l :: rc) = byteLength l + byte_total rc.
Proof. unfold byte_total at 1. simpl. apply byte_total_from. Qed.

(** X3: a well-formed line takes at least one byte and at most three bytes
    for each of its code units; the total the handler compares with
    [byteLengthLimit] is never negative and no captured line has more code
    units than that total. *)
Theorem byte_length_bounds (rc : list jsstring) :
  Forall well_formed rc ->
  Forall (fun l => slen l <= byteLength l <= 3 * slen l) rc /\
  (forall l, In l rc -> slen l <= byte_total rc) /\
  0 <= byte_total rc.
Proof.
  intros Hwf.
  assert (Hall : Forall (fun l => slen l <= byteLength l <= 3 * slen l) rc).
  { rewrite Forall_forall in *. intros l Hl.
    pose proof (from_length (List.length l) l (le_n _) (Hwf l Hl)).
    unfold slen, byteLength. lia. }
  split; [exact Hall|].
  clear Hwf. induction Hall as [|l rc Hl Hrc IH].
  - split; [intros l []|reflexivity].
  - destruct IH as [IH1 IH2]. rewrite byte_total_cons.
    assert (0 <= slen l) by (unfold slen; lia).
    split; [|lia]. intros x [<-|Hx]; [lia|].
    specialize (IH1 x Hx). lia.
Qed.

End Utf8Sizes.

Lemma run_bind_Done (E : Env) A B (p : prog A) (f : A -> prog B)
    (s s' : state E) (b : B) (t : list exchange) :
  run E (bind p f) s = (Done b, t, s') ->
  exists a t1 s1 t2,
    run E p s = (Done a, t1, s1) /\
    run E (f a) s1 = (Done b, t2, s') /\ t = t1 ++ t2.
Proof.
  rewrite run_bind.
  destruct (run E p s) as [[[a| |c] t1] s1]; try discriminate.
  destruct (run E (f a) s1) as [[o t2] s2] eqn:Hf.
  intros [= -> <- <-]. exists a, t1, s1, t2. auto.
Qed.

Lemma records_app (t u : list exchange) :
  records (t ++ u) = records t ++ records u.
Proof. unfold records. apply flat_map_app. Qed.

Lemma highlights_app (t u : list exchange) :
  highlights (t ++ u) = highlights t ++ highlights u.
Proof. unfold highlights. apply flat_map_app. Qed.

Lemma records_count (t : list exchange) :
  List.length (records t) = List.length (filter is_append (calls t)).
Proof.
  induction t as [|x t IH]; simpl; [reflexivity|].
  rewrite length_app, IH. destruct (call_of x); reflexivity.
Qed.

Lemma highlights_count (t : list exchange) :
  List.length (highlights t) = List.length (filter is_highlight (calls t)).
Proof.
  induction t as [|x t IH]; simpl; [reflexivity|].
  rewrite length_app, IH. destruct (call_of x); reflexivity.
Qed.

Lemma at_most_weaken A (Q : Call -> bool) (n m : nat) (p : prog A) :
  (n <= m)%nat -> at_most Q n p -> at_most Q m p.
Proof.
  revert n m. induction p as [a| |c k IH]; intros n m Hnm; simpl; auto.
  destruct (Q c).
  - destruct n as [|n]; [contradiction|].
    destruct m as [|m]; [lia|].
    intros H x. apply (IH x n m); [lia|apply H].
  - intros H x. apply (IH x n m Hnm), H.
Qed.

Lemma at_most_bind A B (Q : Call -> bool) (n m : nat)
    (p : prog A) (f : A -> prog B) :
  at_most Q n p -> (forall a, at_most Q m (f a)) ->
  at_most Q (n + m) (bind p f).
Proof.
  revert n. induction p as [a| |c k IH]; intros n Hp Hf; simpl in *.
  - apply (at_most_weaken _ Q m (n + m)); [lia|apply Hf].
  - exact I.
  - destruct (Q c).
    + destruct n as [|n]; [contradiction|]. simpl. intros x.
      apply IH; auto.
    + intros x. apply IH; auto.
Qed.

Lemma at_most_call A (Q : Call -> bool) (c : Call) (f : resp c -> prog A)
    (n : nat) :
  (forall x, at_most Q n (f x)) ->
  at_most Q (if Q c then S n else n) (bind (call c) f).
Proof. intros H. simpl. destruct (Q c); exact H. Qed.

Lemma at_most_run (E : Env) A (Q : Call -> bool) (n : nat) (p : prog A)
    (s : state E) :
  at_most Q n p ->
  (List.length (filter Q (calls (trace_of (run E p s)))) <= n)%nat.
Proof.
  revert n s. induction p as [a| |c k IH]; intros n s Hp; simpl in *;
    unfold trace_of; simpl; try lia.
  destruct (answer E c s) as [[x|] s1].
  - destruct (run E (k x) s1) as [[o t] s2] eqn:Hr. simpl.
    destruct (Q c).
    + destruct n as [|n]; [contradiction|].
      specialize (IH x n s1 (Hp x)). rewrite Hr in IH.
      unfold trace_of in IH. simpl in *. lia.
    + specialize (IH x n s1 (Hp x)). rewrite Hr in IH.
      unfold trace_of in IH. simpl in *. lia.
  - simpl. destruct (Q c); simpl; [|lia].
    destruct n; [contradiction|lia].
Qed.

Lemma all_calls_at_most_0 A (Q : Call -> bool) (p : prog A) :
  all_calls (fun c => Q c = false) p -> at_most Q 0 p.
Proof.
  induction p as [a| |c k IH]; simpl; auto.
  intros [Hc Hk]. rewrite Hc. intros x. apply IH, Hk.
Qed.



Ltac step_call :=
  cbn [bind call at_most never_throws all_calls is_append is_highlight];
  intros.

(** ** When the handler does anything at all *)

(** X4: the callback issues no call at all exactly when the document is
    missing or the captured lines exceed [byteLengthLimit]. *)
Theorem handler_silent_iff (cfg : Config) (doc : option Document)
    (ev : YankEvent) (E : Env) (s : state E) :
  trace_of (run E (on_yank cfg doc ev) s) = [] <->
  doc = None \/ byte_total (regcontents ev) > byteLengthLimit cfg.
Proof.
  unfold on_yank. destruct doc as [d|].
  - cbv zeta.
    destruct (Z.gtb_spec (byte_total (regcontents ev)) (byteLengthLimit cfg))
      as [Hgt|Hle].
    + split; [intros _; right; lia|reflexivity].
    + split.
      * cbn [bind call run]. unfold trace_of.
        destruct (answer E ForceSync s) as [[x|] s1].
        -- destruct (answer E GetPos s1) as [[p|] s2]; [|discriminate].
           destruct (run E (on_yank_at cfg d ev (fst p) (snd p)) s2)
             as [[o t] s3]. discriminate.
        -- discriminate.
      * intros [H|H]; [discriminate|lia].
  - split; [intros _; now left|reflexivity].
Qed.

Lemma all_calls_on_yank_at (P : Call -> Prop) cfg d ev lnum col :
  (forall c, not_append c -> P c) ->
  all_calls P (record d ev lnum col) ->
  all_calls P (on_yank_at cfg d ev lnum col).
Proof.
  intros Hother Hrec. unfold on_yank_at. cbv zeta.
  destruct (str_eqb (operator ev) _); [|apply Hrec].
  destruct (negb _); [exact I|].
  apply all_calls_bind; [apply all_calls_call, Hother; exact I|]. intros _.
  destruct (startsWith _ _).
  { apply all_calls_bind.
    - apply all_calls_block_ranges; intros; apply Hother; exact I.
    - intros ranges. apply all_calls_bind; [|intros; apply Hrec].
      apply all_calls_apply_highlight; intros; apply Hother; exact I. }
  destruct (str_eqb (regtype ev) (lit "v")).
  { destruct (char_ranges _ _ _); [|exact I].
    apply all_calls_bind; [|intros; apply Hrec].
    apply all_calls_apply_highlight; intros; apply Hother; exact I. }
  destruct (str_eqb (regtype ev) (lit "V")); [|exact I].
  apply all_calls_bind; [|intros; apply Hrec].
  apply all_calls_apply_highlight; intros; apply Hother; exact I.
Qed.

(** X5: every append the callback makes passes the captured lines
    unchanged, the register type (["^v"] for a block), the document's
    filetype and the locator [uri TAB lnum TAB col] built from the line and
    column that [getpos] answered; the joined content has at least four
    code units and the event is within the byte ceiling. *)
Theorem stored_record_invariant (cfg : Config) (d : Document)
    (ev : YankEvent) (E : Env) (s : state E) (r : HistoryItem) :
  In r (records (trace_of (run E (on_yank cfg (Some d) ev) s))) ->
  content r = regcontents ev /\
  item_regtype r
  = (if startsWith (regtype ev) [22] then lit "^v" else regtype ev) /\
  item_filetype r = filetype d /\
  (exists lnum col,
     In (Answered GetPos (lnum, col))
       (trace_of (run E (on_yank cfg (Some d) ev) s)) /\
     path r = uri d ++ [9] ++ of_int lnum ++ [9] ++ of_int col) /\
  4 <= slen (join_nl (regcontents ev)) /\
  byte_total (regcontents ev) <= byteLengthLimit cfg.
Proof.
  unfold on_yank. cbv zeta.
  destruct (Z.gtb_spec (byte_total (regcontents ev)) (byteLengthLimit cfg))
    as [Hgt|Hle]; [intros []|].
  cbn [bind call run]. unfold trace_of.
  destruct (answer E ForceSync s) as [[[]|] s1]; [|intros []].
  destruct (answer E GetPos s1) as [[[lnum col]|] s2]; [|intros []].
  cbn [fst snd].
  set (P := fun c : Call =>
              match c with
              | DbAdd c' r' p' f' =>
                  c' = regcontents ev /\
                  r' = (if startsWith (regtype ev) [22] then lit "^v"
                        else regtype ev) /\
                  f' = filetype d /\
                  p' = uri d ++ [9] ++ of_int lnum ++ [9] ++ of_int col /\
                  4 <= slen (join_nl (regcontents ev))
              | _ => True
              end).
  assert (Hall : all_calls P (on_yank_at cfg d ev lnum col)).
  { apply all_calls_on_yank_at.
    - intros c Hc. destruct c; simpl in *; auto. contradiction.
    - unfold record. cbv zeta.
      destruct (Z.ltb_spec (slen (join_nl (regcontents ev))) 4); [exact I|].
      apply all_calls_call. unfold P. repeat split; auto. }
  apply (all_calls_run E _ P _ s2) in Hall.
  destruct (run E (on_yank_at cfg d ev lnum col) s2) as [[o t] s3].
  unfold trace_of in Hall. cbn [fst snd] in *.
  change (records (Answered ForceSync tt :: Answered GetPos (lnum, col) :: t))
    with (records t).
  intros Hr.
  assert (HQ : Forall (fun r => content r = regcontents ev /\
                 item_regtype r = (if startsWith (regtype ev) [22]
                                   then lit "^v" else regtype ev) /\
                 item_filetype r = filetype d /\
                 path r = uri d ++ [9] ++ of_int lnum ++ [9] ++ of_int col /\
                 4 <= slen (join_nl (regcontents ev))) (records t)).
  { apply records_Forall. revert Hall. apply Forall_impl.
    intros c. unfold P. destruct c; auto. }
  rewrite Forall_forall in HQ. destruct (HQ r Hr) as [H1 [H2 [H3 [H4 H5]]]].
  repeat split; auto.
  exists lnum, col. split; [right; left; reflexivity|exact H4].
Qed.

Lemma at_most_record (d : Document) (ev : YankEvent) (lnum col : Z) :
  at_most is_append 1 (record d ev lnum col) /\
  at_most is_highlight 0 (record d ev lnum col).
Proof.
  unfold record. cbv zeta. destruct (_ <? 4); split; step_call; exact I.
Qed.

Lemma at_most_apply_highlight (rs : list Range) (ms : Z) :
  at_most is_append 0 (apply_highlight rs ms) /\
  at_most is_highlight 1 (apply_highlight rs ms).
Proof.
  unfold apply_highlight.
  split; simpl; intros _ ids _; destruct ids; simpl; auto.
Qed.

Lemma at_most_block_ranges (Q : Call -> bool) doc rc lnum col :
  Q WinSaveView = false -> Q (SetPos lnum col) = false ->
  Q ColDot = false -> Q NormalJ = false ->
  (forall v, Q (WinRestView v) = false) ->
  at_most Q 0 (block_ranges doc rc lnum col).
Proof.
  intros. apply all_calls_at_most_0.
  apply all_calls_block_ranges; auto.
Qed.

Lemma at_most_on_yank_at (cfg : Config) (d : Document) (ev : YankEvent)
    (lnum col : Z) :
  at_most is_append 1 (on_yank_at cfg d ev lnum col) /\
  at_most is_highlight 1 (on_yank_at cfg d ev lnum col).
Proof.
  pose proof (at_most_record d ev lnum col) as [Hr1 Hr2].
  unfold on_yank_at. cbv zeta.
  destruct (str_eqb (operator ev) _).
  2:{ split; [exact Hr1|].
      apply (at_most_weaken _ _ 0 1); [lia|exact Hr2]. }
  destruct (negb _); [split; exact I|].
  assert (Hhl : forall rs,
            at_most is_append 1
              (apply_highlight rs (highlight_duration cfg) ;;;
               record d ev lnum col) /\
            at_most is_highlight 1
              (apply_highlight rs (highlight_duration cfg) ;;;
               record d ev lnum col)).
  { intros rs. destruct (at_most_apply_highlight rs (highlight_duration cfg))
      as [Ha Hh]. split.
    - apply (at_most_bind _ _ is_append 0 1); auto.
    - apply (at_most_bind _ _ is_highlight 1 0); auto. }
  split; step_call.
  - destruct (startsWith _ _).
    { apply (at_most_bind _ _ is_append 0 1);
        [now apply at_most_block_ranges|intros; apply Hhl]. }
    destruct (str_eqb (regtype ev) (lit "v")).
    { destruct (char_ranges _ _ _); [apply Hhl|exact I]. }
    destruct (str_eqb (regtype ev) (lit "V")); [apply Hhl|exact I].
  - destruct (startsWith _ _).
    { apply (at_most_bind _ _ is_highlight 0 1);
        [now apply at_most_block_ranges|intros; apply Hhl]. }
    destruct (str_eqb (regtype ev) (lit "v")).
    { destruct (char_ranges _ _ _); [apply Hhl|exact I]. }
    destruct (str_eqb (regtype ev) (lit "V")); [apply Hhl|exact I].
Qed.

(** X6: one event makes at most one append to the store and at most one
    highlight request, however the editor answers. *)
Theorem one_record_one_highlight (cfg : Config) (doc : option Document)
    (ev : YankEvent) (E : Env) (s : state E) :
  (List.length (records (trace_of (run E (on_yank cfg doc ev) s))) <= 1)%nat
  /\
  (List.length (highlights (trace_of (run E (on_yank cfg doc ev) s))) <= 1)%nat.
Proof.
  rewrite records_count, highlights_count.
  assert (H : at_most is_append 1 (on_yank cfg doc ev) /\
              at_most is_highlight 1 (on_yank cfg doc ev)).
  { unfold on_yank. destruct doc as [d|]; [|split; exact I]. cbv zeta.
    destruct (_ >? _); [split; exact I|].
    split; step_call; apply at_most_on_yank_at. }
  destruct H as [Ha Hh]. split; now apply at_most_run.
Qed.

Lemma all_calls_apply_highlight_timer (P : Call -> Prop) ranges duration :
  P PauseNotification -> P (MatchAddRanges ranges) -> P ResumeNotification ->
  (forall id ids, P (SetTimeout (id :: ids) duration)) ->
  all_calls P (apply_highlight ranges duration).
Proof.
  intros Hp Hm Hr Ht. unfold apply_highlight.
  apply all_calls_bind; [now apply all_calls_call|]. intros _.
  apply all_calls_bind; [now apply all_calls_call|]. intros ids.
  apply all_calls_bind; [now apply all_calls_call|]. intros _.
  destruct ids; [exact I|]. apply all_calls_call, Ht.
Qed.

(** X7: a highlight request or a clearing timer is only ever issued for a
    [y] yank on an existing document, within the byte ceiling, with
    highlighting enabled and a register type that is block, ["v"] or ["V"];
    a timer always carries [highlight.duration] and a non-empty list of
    ids. *)
Theorem highlight_only_when_eligible (cfg : Config) (doc : option Document)
    (ev : YankEvent) (E : Env) (s : state E) :
  (forall rs,
     In (MatchAddRanges rs) (calls (trace_of (run E (on_yank cfg doc ev) s)))
     -> eligible cfg doc ev) /\
  (forall ids ms,
     In (SetTimeout ids ms) (calls (trace_of (run E (on_yank cfg doc ev) s)))
     -> eligible cfg doc ev /\ ms = highlight_duration cfg /\ ids <> []).
Proof.
  set (P := fun c : Call =>
              match c with
              | MatchAddRanges _ => eligible cfg doc ev
              | SetTimeout ids ms =>
                  eligible cfg doc ev /\ ms = highlight_duration cfg
                  /\ ids <> []
              | _ => True
              end).
  assert (Hall : all_calls P (on_yank cfg doc ev)).
  { unfold on_yank. destruct doc as [d|] eqn:Hdoc; [|exact I]. cbv zeta.
    destruct (Z.gtb_spec (byte_total (regcontents ev)) (byteLengthLimit cfg))
      as [Hgt|Hle]; [exact I|].
    apply all_calls_bind; [now apply all_calls_call|]. intros _.
    apply all_calls_bind; [now apply all_calls_call|]. intros pos.
    assert (Hrec : forall lnum col, all_calls P (record d ev lnum col)).
    { intros lnum col. unfold record. cbv zeta.
      destruct (_ <? 4); [exact I|]. now apply all_calls_call. }
    unfold on_yank_at. cbv zeta.
    destruct (str_eqb (operator ev) (lit "y")) eqn:Hop; [|apply Hrec].
    apply str_eqb_eq in Hop.
    destruct (highlight_enable cfg) eqn:Hen; [|exact I]. cbn [negb].
    apply all_calls_bind; [now apply all_calls_call|]. intros _.
    assert (Hhl : (startsWith (regtype ev) [22] = true
                   \/ regtype ev = lit "v" \/ regtype ev = lit "V") ->
                  forall rs,
                    all_calls P
                      (apply_highlight rs (highlight_duration cfg) ;;;
                       record d ev (fst pos) (snd pos))).
    { intros Hmode rs.
      assert (Hel : eligible cfg (Some d) ev).
      { unfold eligible. repeat split; auto. discriminate. }
      apply all_calls_bind; [|intros; apply Hrec].
      apply all_calls_apply_highlight_timer; try exact I; try exact Hel.
      intros id ids. split; [exact Hel|]. split; [reflexivity|discriminate]. }
    destruct (startsWith (regtype ev) [22]) eqn:Hb.
    { apply all_calls_bind.
      - apply all_calls_block_ranges; intros; exact I.
      - intros rs. apply Hhl. now left. }
    destruct (str_eqb (regtype ev) (lit "v")) eqn:Hv.
    { apply str_eqb_eq in Hv.
      destruct (char_ranges _ _ _); [|exact I]. apply Hhl. auto. }
    destruct (str_eqb (regtype ev) (lit "V")) eqn:HV; [|exact I].
    apply str_eqb_eq in HV. apply Hhl. auto. }
  apply (all_calls_run E _ P _ s) in Hall. rewrite Forall_forall in Hall.
  split.
  - intros rs Hin. exact (Hall _ Hin).
  - intros ids ms Hin. exact (Hall _ Hin).
Qed.

(** X8: the highlight is requested between [pauseNotification] and
    [resumeNotification]; when all goes through, the clearing timer is set
    exactly when [matchAddRanges] returned some id, and with the ids it
    returned. The step never throws, and a timer request is never made
    before the highlight was answered. *)
Theorem highlight_protocol (E : Env) (s : state E) (rs : list Range)
    (ms : Z) :
  match run E (apply_highlight rs ms) s with
  | (Done _, t, _) =>
      exists ids,
        t = Answered PauseNotification tt
              :: Answered (MatchAddRanges rs) ids
              :: Answered ResumeNotification tt
              :: match ids with
                 | [] => []
                 | _ :: _ => [Answered (SetTimeout ids ms) tt]
                 end
  | (Threw, _, _) => False
  | (Rejected c, t, _) =>
      forall ids ms',
        In (SetTimeout ids ms') (calls t) ->
        c = SetTimeout ids ms' /\ ms' = ms /\ ids <> [] /\
        In (Answered (MatchAddRanges rs) ids) t
  end.
Proof.
  unfold apply_highlight. simpl.
  destruct (answer E PauseNotification s) as [[[]|] s1].
  2:{ simpl. intros ids ms' [H|[]]. discriminate. }
  destruct (answer E (MatchAddRanges rs) s1) as [[ids|] s2].
  2:{ simpl. intros ids ms' [H|[H|[]]]; discriminate. }
  destruct (answer E ResumeNotification s2) as [[[]|] s3].
  2:{ simpl. intros ids' ms' [H|[H|[H|[]]]]; discriminate. }
  destruct ids as [|id ids]; simpl.
  - exists []. reflexivity.
  - destruct (answer E (SetTimeout (id :: ids) ms) s3) as [[[]|] s4].
    + exists (id :: ids). reflexivity.
    + simpl. intros ids' ms' [H|[H|[H|[H|[]]]]]; try discriminate.
      inversion H; subst. split; [reflexivity|]. split; [reflexivity|].
      split; [discriminate|]. right. left. reflexivity.
Qed.

Lemma record_run (E : Env) (d : Document) (ev : YankEvent) (lnum col : Z)
    (s s' : state E) (t : list exchange) :
  4 <= slen (join_nl (regcontents ev)) ->
  run E (record d ev lnum col) s = (Done tt, t, s') ->
  t = [Answered (DbAdd (regcontents ev)
                   (if startsWith (regtype ev) [22] then lit "^v"
                    else regtype ev)
                   (uri d ++ [9] ++ of_int lnum ++ [9] ++ of_int col)
                   (filetype d)) tt].
Proof.
  intros Hlen. unfold record. cbv zeta.
  destruct (Z.ltb_spec (slen (join_nl (regcontents ev))) 4); [lia|].
  simpl. destruct (answer E _ s) as [[[]|] s1]; [|discriminate].
  now intros [= <- <-].
Qed.

(** X9: for an operator other than [y], within the byte ceiling and with
    at least four code units of content, the callback does three things when
    the editor and the store answer: it synchronises the document, asks for
    the start of the yank and appends the record; no highlight call is
    made. *)
Theorem other_operator_recorded (cfg : Config) (d : Document)
    (ev : YankEvent) (E : Env) (s s1 s2 s3 : state E) (lnum col : Z) :
  operator ev <> lit "y" ->
  byte_total (regcontents ev) <= byteLengthLimit cfg ->
  4 <= slen (join_nl (regcontents ev)) ->
  answer E ForceSync s = (Some tt, s1) ->
  answer E GetPos s1 = (Some (lnum, col), s2) ->
  answer E (DbAdd (regcontents ev)
              (if startsWith (regtype ev) [22] then lit "^v" else regtype ev)
              (uri d ++ [9] ++ of_int lnum ++ [9] ++ of_int col)
              (filetype d)) s2 = (Some tt, s3) ->
  run E (on_yank cfg (Some d) ev) s
  = (Done tt,
     [Answered ForceSync tt; Answered GetPos (lnum, col);
      Answered (DbAdd (regcontents ev)
                  (if startsWith (regtype ev) [22] then lit "^v"
                   else regtype ev)
                  (uri d ++ [9] ++ of_int lnum ++ [9] ++ of_int col)
                  (filetype d)) tt],
     s3).
Proof.
  intros Hop Hle Hlen H1 H2 H3. unfold on_yank. cbv zeta.
  destruct (Z.gtb_spec (byte_total (regcontents ev)) (byteLengthLimit cfg));
    [lia|].
  cbn [bind call run]. rewrite H1, H2. cbn [fst snd].
  rewrite (other_operators_record cfg d ev lnum col Hop Hlen).
  cbn [call run]. rewrite H3. reflexivity.
Qed.

Lemma other_operator_recorded_witness :
  records (trace_of (run (editor_env Sample.ed)
                       (on_yank Sample.no_highlight (Some Sample.doc)
                          Sample.ev_delete) O))
  = [record_of Sample.doc Sample.ev_delete 1 1].
Proof.
  rewrite (other_operator_recorded Sample.no_highlight Sample.doc
             Sample.ev_delete (editor_env Sample.ed) 0%nat 1%nat 2%nat 3%nat
             1 1).
  - reflexivity.
  - discriminate.
  - vm_compute. discriminate.
  - vm_compute. discriminate.
  - reflexivity.
  - reflexivity.
  - reflexivity.
Defined.

Lemma apply_highlight_Done (E : Env) (rs : list Range) (ms : Z)
    (s s' : state E) (t : list exchange) (u : unit) :
  run E (apply_highlight rs ms) s = (Done u, t, s') ->
  highlights t = [rs] /\ records t = [].
Proof.
  unfold apply_highlight. simpl.
  destruct (answer E PauseNotification s) as [[[]|] s1]; [|discriminate].
  destruct (answer E (MatchAddRanges rs) s1) as [[ids|] s2]; [|discriminate].
  destruct (answer E ResumeNotification s2) as [[[]|] s3]; [|discriminate].
  destruct ids as [|id ids]; simpl.
  - intros [= <- <- <-]. split; reflexivity.
  - destruct (answer E (SetTimeout (id :: ids) ms) s3) as [[[]|] s4];
      [|discriminate].
    intros [= <- <- <-]. split; reflexivity.
Qed.

Lemma quiet_Done (E : Env) A (p : prog A) (s : state E) :
  all_calls (fun c => not_append c /\ is_highlight c = false) p ->
  records (trace_of (run E p s)) = [] /\
  highlights (trace_of (run E p s)) = [].
Proof.
  intros Hall. apply (all_calls_run E _ _ _ s) in Hall. split.
  - apply records_nil. revert Hall. apply Forall_impl. tauto.
  - induction (trace_of (run E p s)) as [|x t IH]; [reflexivity|].
    simpl in *. inversion Hall as [|? ? [_ Hx] Ht]; subst.
    rewrite (IH Ht). destruct (call_of x); try reflexivity. discriminate.
Qed.

Lemma highlight_then_record_Done (E : Env) (d : Document) (ev : YankEvent)
    (lnum col : Z) (rs : list Range) (ms : Z) (s s' : state E)
    (t : list exchange) :
  4 <= slen (join_nl (regcontents ev)) ->
  run E (apply_highlight rs ms ;;; record d ev lnum col) s = (Done tt, t, s') ->
  records t = [record_of d ev lnum col] /\ highlights t = [rs].
Proof.
  intros Hlen Hrun.
  apply run_bind_Done in Hrun as [u [t1 [s1 [t2 [H1 [H2 ->]]]]]].
  apply apply_highlight_Done in H1 as [Hh Hr].
  apply (record_run E d ev lnum col s1 s' t2 Hlen) in H2. subst t2.
  rewrite records_app, highlights_app, Hh, Hr. split; reflexivity.
Qed.

(** X10: when the callback of a highlighted yank runs to its end, with
    at least four code units of content, the trace holds exactly one
    highlight request and exactly one append, the record of the event at the
    position [getpos] answered. *)
Theorem yank_recorded_after_highlight (cfg : Config) (d : Document)
    (ev : YankEvent) (E : Env) (s s' : state E) (t : list exchange) :
  eligible cfg (Some d) ev ->
  4 <= slen (join_nl (regcontents ev)) ->
  run E (on_yank cfg (Some d) ev) s = (Done tt, t, s') ->
  exists lnum col rs,
    In (Answered GetPos (lnum, col)) t /\
    records t = [record_of d ev lnum col] /\
    highlights t = [rs].
Proof.
  intros [_ [Hle [Hop [Hen Hmode]]]] Hlen. unfold on_yank. cbv zeta.
  destruct (Z.gtb_spec (byte_total (regcontents ev)) (byteLengthLimit cfg));
    [lia|].
  cbn [bind call run].
  destruct (answer E ForceSync s) as [[[]|] s1]; [|discriminate].
  destruct (answer E GetPos s1) as [[[lnum col]|] s2]; [|discriminate].
  cbn [fst snd].
  destruct (run E (on_yank_at cfg d ev lnum col) s2) as [[o t'] s3] eqn:Hat.
  intros [= -> <- <-].
  assert (Hgoal : exists rs, records t' = [record_of d ev lnum col]
                             /\ highlights t' = [rs]).
  { revert Hat. unfold on_yank_at. cbv zeta.
    rewrite Hop, str_eqb_refl, Hen. cbn [negb]. intros Hat.
    apply run_bind_Done in Hat as [w [t1 [s4 [t2 [H1 [H2 ->]]]]]].
    assert (Ht1 : records t1 = [] /\ highlights t1 = []).
    { pose proof (quiet_Done E _ (call WinGetId) s2) as Hq.
      rewrite H1 in Hq. apply Hq. simpl. auto. }
    destruct Ht1 as [Hr1 Hh1].
    rewrite records_app, highlights_app, Hr1, Hh1. cbn [app].
    destruct (startsWith (regtype ev) [22]) eqn:Hb.
    { apply run_bind_Done in H2 as [rs [t3 [s5 [t4 [H3 [H4 ->]]]]]].
      assert (Ht3 : records t3 = [] /\ highlights t3 = []).
      { pose proof (quiet_Done E _
                      (block_ranges d (regcontents ev) lnum col) s4) as Hq.
        rewrite H3 in Hq. apply Hq.
        apply all_calls_block_ranges; simpl; auto. }
      destruct Ht3 as [Hr3 Hh3].
      rewrite records_app, highlights_app, Hr3, Hh3. cbn [app].
      exists rs. now apply (highlight_then_record_Done E d ev lnum col rs
                              (highlight_duration cfg) s5 s3). }
    destruct Hmode as [Hm|[Hm|Hm]]; [discriminate| |].
    - rewrite Hm in H2. cbn [str_eqb lit] in H2.
      change (str_eqb (lit "v") (lit "v")) with true in H2.
      destruct (char_ranges _ _ _) as [rs|]; [|discriminate].
      exists rs.
      apply (highlight_then_record_Done E d ev lnum col rs
               (highlight_duration cfg) s4 s3); [exact Hlen|exact H2].
    - rewrite Hm in H2.
      change (str_eqb (lit "V") (lit "v")) with false in H2.
      change (str_eqb (lit "V") (lit "V")) with true in H2.
      cbv iota in H2.
      exists (line_ranges d (regcontents ev) lnum).
      apply (highlight_then_record_Done E d ev lnum col _
               (highlight_duration cfg) s4 s3); [exact Hlen|exact H2]. }
  destruct Hgoal as [rs [Hr Hh]].
  exists lnum, col, rs. split; [right; left; reflexivity|].
  split; [exact Hr|exact Hh].
Qed.

Lemma yank_recorded_after_highlight_witness :
  exists lnum col rs,
    In (Answered GetPos (lnum, col))
      (trace_of (run (editor_env Sample.ed)
                   (on_yank default_config (Some Sample.doc) Sample.ev_line)
                   O)) /\
    records (trace_of (run (editor_env Sample.ed)
                         (on_yank default_config (Some Sample.doc)
                            Sample.ev_line) O))
    = [record_of Sample.doc Sample.ev_line lnum col] /\
    highlights (trace_of (run (editor_env Sample.ed)
                            (on_yank default_config (Some Sample.doc)
                               Sample.ev_line) O)) = [rs].
Proof.
  apply (yank_recorded_after_highlight default_config Sample.doc
           Sample.ev_line (editor_env Sample.ed) 0%nat 8%nat).
  - unfold eligible. split; [discriminate|].
    split; [vm_compute; discriminate|]. repeat split. auto.
  - vm_compute. discriminate.
  - vm_compute. reflexivity.
Defined.









(** X12: a linewise yank of [N] lines produces exactly [N] ranges, the
    [k]-th on line [lnum - 1 + k], from character 0 to the length of that
    line in the document. *)
Theorem line_ranges_exact (doc : Document) (regcontents : list jsstring)
    (lnum : Z) :
  line_ranges doc regcontents lnum
  = map (fun k =>
           mkRange (mkPosition (lnum + Z.of_nat k - 1) 0)
             (mkPosition (lnum + Z.of_nat k - 1)
                (slen (getline doc (lnum + Z.of_nat k - 1)))))
      (seq 0 (List.length regcontents)) /\
  List.length (line_ranges doc regcontents lnum) = List.length regcontents.
Proof.
  unfold line_ranges. rewrite line_loop_spec. simpl. split; [reflexivity|].
  now rewrite length_map, length_seq.
Qed.





(** ** The completion provider, further *)

Lemma filter_throw_None A (f : A -> option bool) (xs : list A) :
  filter_throw f xs = None <-> exists x, In x xs /\ f x = None.
Proof.
  induction xs as [|y xs IH]; simpl.
  - split; [discriminate|intros [x [[] _]]].
  - destruct (f y) as [b|] eqn:Hy.
    + destruct (filter_throw f xs) as [r|].
      * split; [discriminate|].
        intros [x [[->|Hx] Hfx]]; [congruence|].
        assert (Hnone : Some r = None) by (apply IH; now exists x).
        discriminate.
      * split; [|reflexivity]. intros _.
        destruct (proj1 IH eq_refl) as [x [Hx Hfx]]. exists x. auto.
    + split; [|reflexivity]. intros _. exists y. auto.
Qed.

Lemma map_throw_In A B (f : A -> option B) (xs : list A) (l : list B) :
  map_throw f xs = Some l ->
  List.length l = List.length xs /\
  forall y, In y l -> exists x, In x xs /\ f x = Some y.
Proof.
  revert l. induction xs as [|x xs IH]; intros l; simpl.
  - intros [= <-]. split; [reflexivity|intros y []].
  - destruct (f x) as [y|] eqn:Hx; [|discriminate].
    destruct (map_throw f xs) as [r|]; [|discriminate].
    intros [= <-]. destruct (IH r eq_refl) as [Hlen Hin]. split.
    + simpl. now rewrite Hlen.
    + intros z [<-|Hz]; [exists x; auto|].
      destruct (Hin z Hz) as [x' [Hx' Hfx']]. exists x'. auto.
Qed.

Lemma map_throw_total A B (f : A -> option B) (xs : list A) :
  (forall x, In x xs -> f x <> None) -> exists l, map_throw f xs = Some l.
Proof.
  induction xs as [|x xs IH]; intros H; simpl; [now exists []|].
  destruct (f x) as [y|] eqn:Hx.
  - destruct IH as [r Hr]; [intros z Hz; apply H; now right|].
    rewrite Hr. now exists (y :: r).
  - exfalso. apply (H x); [now left|exact Hx].
Qed.

Lemma keep_None languageId inp o :
  keep languageId inp o = None <->
  content o = [] /\ item_regtype o <> lit "^v" /\ item_filetype o = languageId.
Proof.
  unfold keep.
  destruct (str_eqb (item_regtype o) (lit "^v")) eqn:Hb.
  { apply str_eqb_eq in Hb. split; [discriminate|]. intros [_ [H _]].
    contradiction. }
  apply str_eqb_neq in Hb.
  destruct (str_eqb (item_filetype o) languageId) eqn:Hl; cbn [negb].
  - apply str_eqb_eq in Hl. destruct (content o) as [|first rest]; simpl.
    + split; auto.
    + split; [discriminate|]. intros [H _]. discriminate.
  - apply str_eqb_neq in Hl. split; [discriminate|]. intros [_ [_ H]].
    contradiction.
Qed.

Lemma keep_true_content languageId inp o :
  keep languageId inp o = Some true ->
  item_filetype o = languageId /\
  exists first rest, content o = first :: rest
                     /\ startsWith (trim first) inp = true.
Proof.
  unfold keep. destruct (str_eqb (item_regtype o) _); [discriminate|].
  destruct (str_eqb (item_filetype o) languageId) eqn:Hl; cbn [negb];
    [|discriminate].
  apply str_eqb_eq in Hl.
  destruct (content o) as [|first rest]; simpl; [discriminate|].
  intros [= H]. split; [exact Hl|]. now exists first, rest.
Qed.

Lemma build_item_kept languageId inp o :
  keep languageId inp o = Some true -> build_item o <> None.
Proof.
  intros H. apply keep_true_content in H as [_ [first [rest [Hc _]]]].
  unfold build_item. rewrite Hc. simpl. discriminate.
Qed.

Lemma provide_enabled cfg history languageId opt :
  enableCompletion cfg = true -> input opt <> [] ->
  provideCompletionItems cfg history languageId (Some opt)
  = match select cfg history languageId opt with
    | None => TypeError
    | Some sel =>
        match map_throw build_item sel with
        | None => TypeError
        | Some l => Items l
        end
    end.
Proof.
  intros Hen Hin. unfold provideCompletionItems. rewrite Hen. cbn [negb].
  destruct (input opt); [contradiction|reflexivity].
Qed.

Lemma provide_type_error_item (cfg : Config) (history : list HistoryItem)
    (languageId : jsstring) (opt : option CompleteOption) :
  provideCompletionItems cfg history languageId opt = TypeError ->
  exists o i, opt = Some i /\ In o history /\
              keep languageId (input i) o = None.
Proof.
  unfold provideCompletionItems.
  destruct (negb (enableCompletion cfg)); [discriminate|].
  destruct opt as [i|]; [|discriminate].
  destruct (input i) eqn:Hin; [discriminate|].
  destruct (select cfg history languageId i) as [sel|] eqn:Hsel.
  - destruct (map_throw_total _ _ build_item sel) as [l Hl].
    { intros o Ho. destruct (select_In _ _ _ _ _ Hsel o Ho) as [_ Hk].
      now apply build_item_kept in Hk. }
    rewrite Hl. discriminate.
  - intros _. unfold select in Hsel.
    destruct (filter_throw _ (rev history)) as [kept|] eqn:Hf;
      [discriminate|].
    apply filter_throw_None in Hf as [o [Ho Hnone]].
    exists o, i. split; [reflexivity|]. split; [now apply in_rev|exact Hnone].
Qed.

(** X14: with completion enabled and a typed prefix, the provider throws
    exactly when the history holds a record without any content line that is
    no block record and has the language of the document. *)
Theorem completion_type_error_iff (cfg : Config)
    (history : list HistoryItem) (languageId : jsstring)
    (opt : CompleteOption) :
  enableCompletion cfg = true -> input opt <> [] ->
  (provideCompletionItems cfg history languageId (Some opt) = TypeError <->
   exists o, In o history /\ content o = [] /\
             item_regtype o <> lit "^v" /\ item_filetype o = languageId).
Proof.
  intros Hen Hin. split.
  - intros Herr.
    apply provide_type_error_item in Herr as [o [i [[= <-] [Ho Hnone]]]].
    exists o. split; [exact Ho|now apply keep_None in Hnone].
  - intros [o [Ho Hnone]]. apply keep_None with (inp := input opt) in Hnone.
    rewrite provide_enabled by assumption. unfold select.
    assert (Hf : filter_throw (keep languageId (input opt)) (rev history)
                 = None).
    { apply filter_throw_None. exists o. split; [now apply in_rev in Ho|auto]. }
    now rewrite Hf.
Qed.

Lemma completion_type_error_iff_witness :
  provideCompletionItems default_config
    [Sample.item_foo; mkItem [] (lit "v") [] (lit "python")]
    (lit "python") (Some Sample.opt_fo) = TypeError.
Proof.
  apply (completion_type_error_iff default_config
           [Sample.item_foo; mkItem [] (lit "v") [] (lit "python")]
           (lit "python") Sample.opt_fo).
  - reflexivity.
  - discriminate.
  - exists (mkItem [] (lit "v") [] (lit "python")).
    split; [right; left; reflexivity|].
    split; [reflexivity|]. split; [discriminate|reflexivity].
Defined.

Lemma stored_content_nonempty (cfg : Config) (doc : option Document)
    (ev : YankEvent) (E : Env) (s : state E) (r : HistoryItem) :
  In r (records (trace_of (run E (on_yank cfg doc ev) s))) ->
  content r <> [].
Proof.
  revert r. apply Forall_forall. apply records_Forall.
  apply all_calls_run. apply all_calls_on_yank.
  - intros c Hc. destruct c; simpl in *; try exact I. contradiction.
  - intros d lnum col. unfold record. cbv zeta.
    destruct (Z.ltb_spec (slen (join_nl (regcontents ev))) 4) as [Hlt|Hge];
      [exact I|].
    apply all_calls_call. cbn [content]. intros Heq.
    rewrite Heq in Hge. cbn in Hge. lia.
Qed.

(** X15: a history made of records that the yank callback stored never
    makes the provider throw, whatever the request is. *)
Theorem stored_history_never_throws (cfg : Config)
    (history : list HistoryItem) (languageId : jsstring)
    (opt : option CompleteOption) :
  (forall o, In o history ->
     exists cfg' doc ev (E : Env) (s : state E),
       In o (records (trace_of (run E (on_yank cfg' doc ev) s)))) ->
  provideCompletionItems cfg history languageId opt <> TypeError.
Proof.
  intros Hstored Herr.
  apply provide_type_error_item in Herr as [x [i [_ [Hx Hnone]]]].
  apply keep_None in Hnone as [Hc _].
  destruct (Hstored x Hx) as [cfg' [doc [ev [E [s Hr]]]]].
  now apply stored_content_nonempty in Hr.
Qed.

Lemma select_shape cfg history languageId opt sel :
  select cfg history languageId opt = Some sel ->
  exists kept,
    filter_throw (keep languageId (input opt)) (rev history) = Some kept /\
    sel = slice
            (if negb (is_blank (slice (opt_line opt) 0 (opt_col opt)))
             then filter (fun o => negb (str_eqb (item_regtype o) (lit "V")))
                    kept
             else kept)
            0 (limit cfg).
Proof.
  unfold select.
  destruct (filter_throw _ (rev history)) as [kept|]; [|discriminate].
  intros [= <-]. now exists kept.
Qed.

Lemma provide_items_select cfg history languageId opt l :
  provideCompletionItems cfg history languageId (Some opt) = Items l ->
  l = [] \/
  exists sel, select cfg history languageId opt = Some sel
              /\ map_throw build_item sel = Some l.
Proof.
  unfold provideCompletionItems.
  destruct (negb (enableCompletion cfg)); [intros [= <-]; now left|].
  destruct (input opt); [discriminate|].
  destruct (select cfg history languageId opt) as [sel|]; [|discriminate].
  destruct (map_throw build_item sel) as [l'|] eqn:Hl; [|discriminate].
  intros [= <-]. right. now exists sel.
Qed.

Lemma trimEnd_prefix_head (t : jsstring) :
  leading_ws t = [] -> leading_ws (trimEnd t) = [].
Proof.
  intros Ht. destruct (trimEnd_split t) as [w [Hsplit _]].
  destruct (trimEnd t) as [|u r]; [reflexivity|].
  rewrite Hsplit in Ht. simpl in *.
  destruct (is_space u); [discriminate|reflexivity].
Qed.

Lemma ws_run_trim (s : jsstring) : ws_run (trim s) = 0.
Proof.
  unfold ws_run, trim.
  now rewrite trimEnd_prefix_head by apply leading_ws_trimStart.
Qed.

(** X16: every candidate is a snippet with markdown documentation; its
    label is the trimmed first line of a history record, starts with the
    typed prefix and has no leading white space; its insertion text is the
    dedented content of that record and its documentation is the fenced
    block of that text, tagged with the language of the document. *)
Theorem candidate_fields (cfg : Config) (history : list HistoryItem)
    (languageId : jsstring) (opt : CompleteOption)
    (l : list CompletionItem) (c : CompletionItem) :
  provideCompletionItems cfg history languageId (Some opt) = Items l ->
  In c l ->
  kind c = Snippet /\
  documentation_kind c = lit "markdown" /\
  startsWith (label c) (input opt) = true /\
  ws_run (label c) = 0 /\
  documentation_value c = markdownBlock (insertText c) languageId /\
  exists o first rest,
    In o history /\ content o = first :: rest /\ label c = trim first /\
    insertText c = join_nl (dedent (content o)).
Proof.
  intros Hl Hc.
  apply provide_items_select in Hl as [->|[sel [Hsel Hmap]]]; [destruct Hc|].
  destruct (map_throw_In _ _ _ _ _ Hmap) as [_ Hin].
  destruct (Hin c Hc) as [o [Ho Hb]].
  destruct (select_In _ _ _ _ _ Hsel o Ho) as [Hhist Hkeep].
  apply keep_true_content in Hkeep as [Hft [first [rest [Hcont Hpre]]]].
  unfold build_item in Hb. rewrite Hcont in Hb. cbn [index] in Hb.
  simpl in Hb. injection Hb as <-. cbn [kind documentation_kind label
    documentation_value insertText].
  split; [reflexivity|]. split; [reflexivity|]. split; [exact Hpre|].
  split; [apply ws_run_trim|]. split; [now rewrite Hft|].
  exists o, first, rest. rewrite Hcont. auto.
Qed.

Lemma candidate_fields_witness :
  startsWith (lit "foo") (lit "fo") = true.
Proof.
  apply (candidate_fields default_config [Sample.item_foo] (lit "python")
           Sample.opt_fo
           [mkCompletion (lit "foo") (lit "foo" ++ 10 :: lit "bar") Snippet
              (lit "markdown")
              (lit "``` python" ++ 10 :: lit "foo" ++ 10 :: lit "bar"
                 ++ 10 :: lit "```")]
           (mkCompletion (lit "foo") (lit "foo" ++ 10 :: lit "bar") Snippet
              (lit "markdown")
              (lit "``` python" ++ 10 :: lit "foo" ++ 10 :: lit "bar"
                 ++ 10 :: lit "```"))).
  - vm_compute. reflexivity.
  - left. reflexivity.
Defined.

Lemma slice_0_length A (xs : list A) (n : Z) :
  (List.length (slice xs 0 n) <= List.length xs)%nat /\
  (0 <= n -> Z.of_nat (List.length (slice xs 0 n)) <= n).
Proof.
  unfold slice, rel_index.
  destruct (Z.ltb_spec 0 0); [lia|].
  rewrite (Z.min_l 0) by lia. simpl skipn.
  rewrite length_firstn. split; [lia|].
  intros Hn. destruct (Z.ltb_spec n 0); lia.
Qed.

Lemma filter_throw_length A (f : A -> option bool) (xs l : list A) :
  filter_throw f xs = Some l -> (List.length l <= List.length xs)%nat.
Proof.
  revert l. induction xs as [|x xs IH]; intros l; simpl.
  - intros [= <-]. simpl. lia.
  - destruct (f x) as [b|]; [|discriminate].
    destruct (filter_throw f xs) as [r|]; [|discriminate].
    intros [= <-]. specialize (IH r eq_refl). destruct b; simpl; lia.
Qed.

(** X17: the provider never returns more candidates than the history has
    records, nor more than [limit] when [limit] is not negative. *)
Theorem candidate_count (cfg : Config) (history : list HistoryItem)
    (languageId : jsstring) (opt : CompleteOption)
    (l : list CompletionItem) :
  provideCompletionItems cfg history languageId (Some opt) = Items l ->
  (List.length l <= List.length history)%nat /\
  (0 <= limit cfg -> Z.of_nat (List.length l) <= limit cfg).
Proof.
  intros Hl.
  apply provide_items_select in Hl as [->|[sel [Hsel Hmap]]];
    [simpl; split; lia|].
  destruct (map_throw_In _ _ _ _ _ Hmap) as [Hlen _]. rewrite Hlen.
  apply select_shape in Hsel as [kept [Hkept ->]].
  apply filter_throw_length in Hkept. rewrite length_rev in Hkept.
  match goal with
  | |- context [slice ?xs 0 _] =>
      destruct (slice_0_length _ xs (limit cfg)) as [H1 H2];
      assert (Hxs : (List.length xs <= List.length kept)%nat)
  end.
  { destruct (negb _); [apply filter_length_le|lia]. }
  split; [lia|exact H2].
Qed.

(** X18: when the text before the cursor column is not blank, no
    candidate is built from a linewise (["V"]) record, nor from a block
    record. *)
Theorem line_records_dropped_mid_line (cfg : Config)
    (history : list HistoryItem) (languageId : jsstring)
    (opt : CompleteOption) (l : list CompletionItem) (c : CompletionItem) :
  is_blank (slice (opt_line opt) 0 (opt_col opt)) = false ->
  provideCompletionItems cfg history languageId (Some opt) = Items l ->
  In c l ->
  exists o,
    In o history /\ build_item o = Some c /\
    item_regtype o <> lit "V" /\ item_regtype o <> lit "^v".
Proof.
  intros Hblank Hl Hc.
  apply provide_items_select in Hl as [->|[sel [Hsel Hmap]]]; [destruct Hc|].
  destruct (map_throw_In _ _ _ _ _ Hmap) as [_ Hin].
  destruct (Hin c Hc) as [o [Ho Hb]]. exists o.
  destruct (select_In _ _ _ _ _ Hsel o Ho) as [Hhist Hkeep].
  split; [exact Hhist|]. split; [exact Hb|]. split.
  - apply select_shape in Hsel as [kept [_ ->]].
    rewrite Hblank in Ho. cbn [negb] in Ho.
    apply slice_In, filter_In in Ho as [_ HV].
    apply str_eqb_neq. now destruct (str_eqb (item_regtype o) (lit "V")).
  - now apply keep_true_not_block in Hkeep.
Qed.

Lemma slice_0_cons A (x : A) (xs : list A) (n : Z) :
  1 <= n -> exists r, slice (x :: xs) 0 n = x :: r.
Proof.
  intros Hn. unfold slice, rel_index.
  destruct (Z.ltb_spec 0 0); [lia|].
  destruct (Z.ltb_spec n 0); [lia|].
  rewrite (Z.min_l 0) by lia. simpl skipn.
  remember (Z.to_nat (Z.min n (Z.of_nat (List.length (x :: xs))) - 0)) as k.
  destruct k as [|k]; [simpl List.length in Heqk; lia|].
  simpl. eexists. reflexivity.
Qed.

(** X19: when the most recent record of the history matches the request
    (and is not linewise, or the text before the column is blank) and
    [limit] is at least 1, the first candidate is the one built from that
    record. *)
Theorem most_recent_match_first (cfg : Config) (older : list HistoryItem)
    (r : HistoryItem) (languageId : jsstring) (opt : CompleteOption) :
  enableCompletion cfg = true -> input opt <> [] -> 1 <= limit cfg ->
  keep languageId (input opt) r = Some true ->
  is_blank (slice (opt_line opt) 0 (opt_col opt)) = true
  \/ item_regtype r <> lit "V" ->
  (forall o, In o older -> content o <> []) ->
  exists c rest,
    provideCompletionItems cfg (older ++ [r]) languageId (Some opt)
    = Items (c :: rest) /\
    build_item r = Some c.
Proof.
  intros Hen Hin Hlim Hkeep Hline Holder.
  rewrite provide_enabled by assumption.
  destruct (select cfg (older ++ [r]) languageId opt) as [sel|] eqn:Hsel.
  2:{ exfalso. unfold select in Hsel.
      destruct (filter_throw _ (rev (older ++ [r]))) as [k|] eqn:Hf;
        [discriminate|].
      apply filter_throw_None in Hf as [o [Ho Hnone]].
      apply in_rev, in_app_or in Ho. apply keep_None in Hnone as [Hc _].
      destruct Ho as [Ho|[<-|[]]]; [now apply (Holder o Ho)|].
      apply keep_true_content in Hkeep as [_ [f [rs [Hcr _]]]]. congruence. }
  destruct (map_throw_total _ _ build_item sel) as [l Hl].
  { intros o Ho. destruct (select_In _ _ _ _ _ Hsel o Ho) as [_ Hk].
    now apply build_item_kept in Hk. }
  rewrite Hl.
  apply select_shape in Hsel as [kept [Hkept ->]].
  rewrite rev_app_distr in Hkept. simpl in Hkept. rewrite Hkeep in Hkept.
  destruct (filter_throw _ (rev older)) as [kept'|]; [|discriminate].
  injection Hkept as <-.
  assert (Hhead : exists tl,
            (if negb (is_blank (slice (opt_line opt) 0 (opt_col opt)))
             then filter (fun o => negb (str_eqb (item_regtype o) (lit "V")))
                    (r :: kept')
             else r :: kept') = r :: tl).
  { destruct (is_blank _) eqn:Hb; cbn [negb]; [now exists kept'|].
    destruct Hline as [H|H]; [discriminate|].
    apply str_eqb_neq in H. cbn [filter]. rewrite H. cbn [negb].
    eexists. reflexivity. }
  destruct Hhead as [tl Htl]. rewrite Htl in Hl.
  destruct (slice_0_cons _ r tl (limit cfg) Hlim) as [rs Hrs].
  rewrite Hrs in Hl. simpl in Hl.
  destruct (build_item r) as [c|] eqn:Hb; [|discriminate].
  destruct (map_throw build_item rs) as [rest|]; [|discriminate].
  injection Hl as <-. now exists c, rest.
Qed.

Lemma trimStart_idem (s : jsstring) : trimStart (trimStart s) = trimStart s.
Proof.
  pose proof (leading_ws_trimStart s) as H.
  rewrite (trimStart_split (trimStart s)) at 2. now rewrite H.
Qed.

Lemma map_skipn_0 A (xs : list (list A)) : map (skipn 0) xs = xs.
Proof.
  induction xs as [|x xs IH]; [reflexivity|].
  cbn [map]. f_equal. exact IH.
Qed.

(** X20: removing the common indentation is idempotent and keeps the
    number of lines. *)
Theorem dedent_idempotent (content : list jsstring) :
  dedent (dedent content) = dedent content /\
  List.length (dedent content) = List.length content.
Proof.
  destruct content as [|first rest]; [split; reflexivity|].
  destruct (dedent_cons first rest) as [m [_ [_ [_ Hd]]]]. rewrite Hd.
  split; [|simpl; now rewrite length_map].
  destruct (dedent_cons (trimStart first) (map (skipn (Z.to_nat m)) rest))
    as [m' [_ [Hle [_ Hd']]]].
  rewrite Hd'.
  assert (Hm' : m' = 0).
  { specialize (Hle (trimStart first) (or_introl eq_refl)).
    unfold ws_run in Hle. rewrite leading_ws_trimStart in Hle.
    unfold slen in Hle. simpl in Hle. lia. }
  rewrite Hm'. simpl Z.to_nat. now rewrite trimStart_idem, map_skipn_0.
Qed.

(** X21: the fence of a [javascriptreact] snippet is the one of
    [javascript], the fence of a [typescriptreact] snippet the one of
    [typescript], any other tag is kept as it is, and the block determines
    the code it fences. *)
Theorem markdownBlock_fence (code code' filetype : jsstring) :
  markdownBlock code (lit "javascriptreact")
  = markdownBlock code (lit "javascript") /\
  markdownBlock code (lit "typescriptreact")
  = markdownBlock code (lit "typescript") /\
  (filetype <> lit "javascriptreact" -> filetype <> lit "typescriptreact" ->
   markdownBlock code filetype
   = lit "``` " ++ filetype ++ [10] ++ code ++ [10] ++ lit "```") /\
  (markdownBlock code filetype = markdownBlock code' filetype ->
   code = code').
Proof.
  split; [reflexivity|]. split; [reflexivity|]. split.
  - intros H1 H2. unfold markdownBlock.
    apply str_eqb_neq in H1, H2. now rewrite H1, H2.
  - unfold markdownBlock. intros H.
    apply app_inv_head in H. apply app_inv_head in H.
    apply app_inv_head in H. rewrite !app_assoc in H.
    apply app_inv_tail in H. now apply app_inv_tail in H.
Qed.

Lemma stored_record_invariant_witness :
  content (record_of Sample.doc Sample.ev_delete 1 1)
  = regcontents Sample.ev_delete.
Proof.
  apply (stored_record_invariant Sample.no_highlight Sample.doc
           Sample.ev_delete (editor_env Sample.ed) O
           (record_of Sample.doc Sample.ev_delete 1 1)).
  vm_compute. left. reflexivity.
Defined.



Lemma stored_history_never_throws_witness :
  provideCompletionItems default_config
    [record_of Sample.doc Sample.ev_delete 1 1] (lit "python")
    (Some Sample.opt_fo) <> TypeError.
Proof.
  apply (stored_history_never_throws default_config
           [record_of Sample.doc Sample.ev_delete 1 1] (lit "python")
           (Some Sample.opt_fo)).
  intros o [<-|[]].
  exists Sample.no_highlight, (Some Sample.doc), Sample.ev_delete,
    (editor_env Sample.ed), O.
  vm_compute. left. reflexivity.
Defined.

Lemma candidate_count_witness :
  Z.of_nat (List.length
              [mkCompletion (lit "foo") (lit "foo" ++ 10 :: lit "bar") Snippet
                 (lit "markdown")
                 (lit "``` python" ++ 10 :: lit "foo" ++ 10 :: lit "bar"
                    ++ 10 :: lit "```")]) <= 3.
Proof.
  apply (candidate_count default_config [Sample.item_foo]
           (lit "python") Sample.opt_fo
           [mkCompletion (lit "foo") (lit "foo" ++ 10 :: lit "bar") Snippet
              (lit "markdown")
              (lit "``` python" ++ 10 :: lit "foo" ++ 10 :: lit "bar"
                 ++ 10 :: lit "```")]).
  - vm_compute. reflexivity.
  - vm_compute. discriminate.
Defined.

Lemma line_records_dropped_mid_line_witness :
  exists o,
    In o [Sample.item_nested; Sample.item_foo] /\
    build_item o
    = Some (mkCompletion (lit "foo") (lit "foo" ++ 10 :: lit "bar") Snippet
              (lit "markdown")
              (lit "``` python" ++ 10 :: lit "foo" ++ 10 :: lit "bar"
                 ++ 10 :: lit "```")) /\
    item_regtype o <> lit "V" /\ item_regtype o <> lit "^v".
Proof.
  apply (line_records_dropped_mid_line default_config
           [Sample.item_nested; Sample.item_foo] (lit "python")
           More.opt_midline
           [mkCompletion (lit "foo") (lit "foo" ++ 10 :: lit "bar") Snippet
              (lit "markdown")
              (lit "``` python" ++ 10 :: lit "foo" ++ 10 :: lit "bar"
                 ++ 10 :: lit "```")]).
  - vm_compute. reflexivity.
  - vm_compute. reflexivity.
  - left. reflexivity.
Defined.

Lemma most_recent_match_first_witness :
  exists c rest,
    provideCompletionItems default_config
      ([Sample.item_block; Sample.item_foo] ++ [Sample.item_foo])
      (lit "python") (Some Sample.opt_fo) = Items (c :: rest) /\
    build_item Sample.item_foo = Some c.
Proof.
  apply (most_recent_match_first default_config
           [Sample.item_block; Sample.item_foo] Sample.item_foo
           (lit "python") Sample.opt_fo).
  - reflexivity.
  - discriminate.
  - vm_compute. discriminate.
  - vm_compute. reflexivity.
  - right. discriminate.
  - intros o [<-|[<-|[]]]; discriminate.
Defined.

Lemma byteSlice_whole_round_trip_witness :
  byteSlice More.accented 0 None = toWellFormed More.accented.
Proof.
  refine (proj1 (byteSlice_whole_round_trip More.accented _)).
  unfold well_formed. cbn. repeat (constructor; [lia|]). constructor.
Defined.

Lemma byteSlice_ascii_witness :
  byteSlice (lit "abcd") 1 (Some 3) = slice (lit "abcd") 1 3.
Proof.
  apply (byteSlice_ascii (lit "abcd") 1 (Some 3)).
  unfold is_ascii. cbn. repeat (constructor; [lia|]). constructor.
Defined.

Lemma byte_length_bounds_witness :
  0 <= byte_total [More.accented; lit "abcd"].
Proof.
  apply (byte_length_bounds [More.accented; lit "abcd"]).
  unfold well_formed. cbn.
  repeat (constructor; [repeat (constructor; [lia|]); constructor|]).
  constructor.
Defined.
